(** * FotoFiler: the naming and organization engine

    A shallow embedding of [fotofiler/core/naming.py] and
    [fotofiler/core/organization.py], with the properties of the
    specification that concern template validation, placeholder
    substitution, filename sanitization, destination directories,
    duplicate handling and the batch operation.

    Python strings are lists of characters ([pystr]), a character being
    a code point below 256: ASCII and the Latin-1 supplement of Unicode.
    On these the regular-expression class \w and [str.lower] are as
    Python has them for a [str]; the literals of the development are
    ASCII, a character outside ASCII is written by its code.  Python
    integers are [Z].  A dictionary is a [gmap].  Exceptions are a [result];
    logging and the filesystem are threaded through a state monad. *)

From Stdlib Require Import ZArith Ascii String List Bool Lia.
From Stdlib Require Import DecimalString DecimalZ.
From stdpp Require Import base option list gmap strings.

Set Default Proof Using "Type".
Local Open Scope list_scope.

(* ================================================================= *)
(** ** Python strings *)

Abbreviation pystr := (list ascii).

(** Literals are written [str "..."]. *)
Definition str (s : string) : pystr := list_ascii_of_string s.

(** The double-quote character, by its code. *)
Definition dquote : ascii := ascii_of_nat 34.

Definition is_lbrace (c : ascii) : bool := Ascii.eqb c "{"%char.
Definition is_rbrace (c : ascii) : bool := Ascii.eqb c "}"%char.
Definition is_brace (c : ascii) : bool := is_lbrace c || is_rbrace c.
Definition is_underscore (c : ascii) : bool := Ascii.eqb c "_"%char.

(** [c in chars] for a one-character string [c]. *)
Definition char_in (chars : pystr) (c : ascii) : bool :=
  existsb (Ascii.eqb c) chars.

(** The class \w of [re] on a [str] pattern (no [re.ASCII] flag): the
    characters for which [str.isalnum] holds, and the underscore.  Below
    256 these are the ASCII letters and digits, the underscore, the
    ordinal indicators 170 and 186, the superscript digits 178, 179 and
    185, the micro sign 181, the fractions 188 to 190, and the letters
    192 to 214, 216 to 246 and 248 to 255. *)
Definition is_word (c : ascii) : bool :=
  let n := nat_of_ascii c in
  ((97 <=? n) && (n <=? 122)) || ((65 <=? n) && (n <=? 90))
  || ((48 <=? n) && (n <=? 57)) || (n =? 95)
  || (n =? 170) || (n =? 178) || (n =? 179) || (n =? 181)
  || (n =? 185) || (n =? 186) || ((188 <=? n) && (n <=? 190))
  || ((192 <=? n) && (n <=? 214)) || ((216 <=? n) && (n <=? 246))
  || (248 <=? n).

(** [s.count(c)] for a one-character string [c]. *)
Definition count (c : ascii) (s : pystr) : nat :=
  length (filter (fun x => Ascii.eqb x c = true) s).

(** [s.startswith(p)], returning what follows the prefix. *)
Fixpoint strip_prefix (p s : pystr) : option pystr :=
  match p, s with
  | [], _ => Some s
  | a :: p', b :: s' => if Ascii.eqb a b then strip_prefix p' s' else None
  | _ :: _, [] => None
  end.

(** [s.replace(old, new)]: scan from the left; where [old] starts, emit
    [new] and resume after the occurrence, else keep the character.  The
    emitted text is never scanned again.  [fuel] bounds the number of
    scan steps; [replace] gives it the length of the string, which is
    enough ([replace_occurrence], [replace_other]).  For an empty [old]
    Python inserts [new] before every character and at the end. *)
Fixpoint replace_fuel (fuel : nat) (old new s : pystr) : pystr :=
  match fuel with
  | O => s
  | S f =>
    match s with
    | [] => []
    | c :: s' =>
      match strip_prefix old s with
      | Some rest => new ++ replace_fuel f old new rest
      | None => c :: replace_fuel f old new s'
      end
    end
  end.

Definition replace (old new s : pystr) : pystr :=
  match old with
  | [] => new ++ flat_map (fun c => c :: new) s
  | _ :: _ => replace_fuel (length s) old new s
  end.

(** [s.lstrip(chars)], [s.rstrip(chars)], [s.strip(chars)]. *)
Fixpoint lstrip (chars s : pystr) : pystr :=
  match s with
  | [] => []
  | c :: s' => if char_in chars c then lstrip chars s' else s
  end.

Fixpoint rstrip (chars s : pystr) : pystr :=
  match s with
  | [] => []
  | c :: s' =>
    match rstrip chars s' with
    | [] => if char_in chars c then [] else [c]
    | r => c :: r
    end
  end.

Definition strip (chars s : pystr) : pystr := rstrip chars (lstrip chars s).

(** Python's [str(n)] for an integer. *)
Definition str_of_int (z : Z) : pystr :=
  str (NilEmpty.string_of_int (Z.to_int z)).

(* ================================================================= *)
(** ** Sanitization: [NamingEngine._clean_filename] *)

(** The character class of [invalid_chars]: < > : double-quote / \ | ? * *)
Definition is_invalid_char (c : ascii) : bool :=
  char_in (str "<>:" ++ dquote :: str "/\|?*") c.

(** [re.sub(invalid_chars, '_', filename)]: the pattern is one character
    class, so every character of the class becomes an underscore. *)
Definition sub_invalid_chars (filename : pystr) : pystr :=
  map (fun c => if is_invalid_char c then "_"%char else c) filename.

(** [re.sub(r'_+', '_', s)]: every maximal run of underscores becomes one
    underscore, that is, an underscore followed by an underscore is
    dropped. *)
Fixpoint sub_underscore_runs (s : pystr) : pystr :=
  match s with
  | [] => []
  | c :: s' =>
    if is_underscore c then
      match s' with
      | c' :: _ => if is_underscore c' then sub_underscore_runs s'
                   else c :: sub_underscore_runs s'
      | [] => [c]
      end
    else c :: sub_underscore_runs s'
  end.

Definition _clean_filename (filename : pystr) : pystr :=
  let clean_name := sub_invalid_chars filename in
  let clean_name := sub_underscore_runs clean_name in
  let clean_name := strip (str "_") clean_name in
  match clean_name with
  | [] => str "unnamed_file"
  | _ :: _ => clean_name
  end.

(* ================================================================= *)
(** ** Regular expressions, as far as [re.match] on the validation
       pattern needs them *)

Inductive regex : Type :=
| Never : regex
| Eps : regex
| Class : (ascii -> bool) -> regex
| Cat : regex -> regex -> regex
| Alt : regex -> regex -> regex
| Star : regex -> regex.

(** One or more: [r+]. *)
Definition Plus (r : regex) : regex := Cat r (Star r).

Fixpoint nullable (r : regex) : bool :=
  match r with
  | Never => false
  | Eps => true
  | Class _ => false
  | Cat r1 r2 => nullable r1 && nullable r2
  | Alt r1 r2 => nullable r1 || nullable r2
  | Star _ => true
  end.

(** The derivative of [r] by the character [c]. *)
Fixpoint deriv (c : ascii) (r : regex) : regex :=
  match r with
  | Never => Never
  | Eps => Never
  | Class p => if p c then Eps else Never
  | Cat r1 r2 =>
    if nullable r1 then Alt (Cat (deriv c r1) r2) (deriv c r2)
    else Cat (deriv c r1) r2
  | Alt r1 r2 => Alt (deriv c r1) (deriv c r2)
  | Star r1 => Cat (deriv c r1) (Star r1)
  end.

(** Does [r] match the whole of [s]? *)
Fixpoint fullmatch (r : regex) (s : pystr) : bool :=
  match s with
  | [] => nullable r
  | c :: s' => fullmatch (deriv c r) s'
  end.

(** [re.match('^' r '$', s)]: the dollar matches at the end of the
    string and also just before a newline that ends the string. *)
Definition newline : ascii := ascii_of_nat 10.

Definition re_match_anchored (r : regex) (s : pystr) : bool :=
  fullmatch r s ||
  match rev s with
  | c :: before => Ascii.eqb c newline && fullmatch r (rev before)
  | [] => false
  end.

(** The words a regular expression denotes. *)
Inductive lang : regex -> pystr -> Prop :=
| lang_eps : lang Eps []
| lang_class p c : p c = true -> lang (Class p) [c]
| lang_cat r1 r2 s1 s2 : lang r1 s1 -> lang r2 s2 -> lang (Cat r1 r2) (s1 ++ s2)
| lang_alt_l r1 r2 s : lang r1 s -> lang (Alt r1 r2) s
| lang_alt_r r1 r2 s : lang r2 s -> lang (Alt r1 r2) s
| lang_star_nil r : lang (Star r) []
| lang_star_cons r s1 s2 :
    lang r s1 -> lang (Star r) s2 -> lang (Star r) (s1 ++ s2).

(* ================================================================= *)
(** ** Exceptions, results and logging *)

Inductive exn : Type :=
| ValueError (msg : pystr)
| KeyError (key : pystr)
| FileNotFoundError (msg : pystr)
| PermissionError (msg : pystr)
| OSError (msg : pystr).

(** [str(e)]. *)
Definition exn_str (e : exn) : pystr :=
  match e with
  | ValueError msg | FileNotFoundError msg | PermissionError msg | OSError msg => msg
  | KeyError key => str "'" ++ key ++ str "'"
  end.

(** [isinstance(e, OSError)]: the builtin hierarchy below [OSError]. *)
Definition is_OSError (e : exn) : bool :=
  match e with
  | FileNotFoundError _ | PermissionError _ | OSError _ => true
  | ValueError _ | KeyError _ => false
  end.

(** The outcome of a call: a value, an exception, or no outcome because
    a loop did not end within its fuel. *)
Inductive result (A : Type) : Type :=
| Ok (a : A)
| Raise (e : exn)
| Diverge.
Arguments Ok {A} a.
Arguments Raise {A} e.
Arguments Diverge {A}.

Inductive log_level : Type := DEBUG | INFO | WARNING | ERROR.

(** A call [logger.level(fmt, args...)]. *)
Record log_record : Type := Log {
  log_lvl : log_level;
  log_fmt : pystr;
  log_args : list pystr
}.

(** Code that may raise and may log, and touches nothing else. *)
Definition Logged (A : Type) : Type := (result A * list log_record)%type.

#[export] Instance logged_ret : MRet Logged := fun A a => (Ok a, []).
#[export] Instance logged_bind : MBind Logged := fun A B f c =>
  match c with
  | (Ok a, l1) => let '(r, l2) := f a in (r, l1 ++ l2)
  | (Raise e, l1) => (Raise e, l1)
  | (Diverge, l1) => (Diverge, l1)
  end.

Definition lraise {A} (e : exn) : Logged A := (Raise e, []).
Definition llog (lvl : log_level) (fmt : pystr) (args : list pystr) : Logged unit :=
  (Ok tt, [Log lvl fmt args]).

(** A [for] loop that threads an accumulator. *)
Fixpoint lfor {A B} (xs : list A) (acc : B) (body : B -> A -> Logged B) : Logged B :=
  match xs with
  | [] => mret acc
  | x :: xs' => acc' ← body acc x; lfor xs' acc' body
  end.

(* ================================================================= *)
(** ** Attribute maps *)

(** The metadata of one file: attribute name to value.  Values are
    strings, as the data model of the specification has them, so
    [str(v)] is [v] and [v] is true when it is not empty. *)
Abbreviation metadata := (gmap pystr pystr).

(** [k in d] *)
Definition contains (d : metadata) (k : pystr) : bool := bool_decide (is_Some (d !! k)).

(** [d[k]], which raises [KeyError] for a missing key. *)
Definition getitem (d : metadata) (k : pystr) : Logged pystr :=
  match d !! k with
  | Some v => mret v
  | None => lraise (KeyError k)
  end.

(** Truth value of a string. *)
Definition truthy (s : pystr) : bool := negb (bool_decide (s = [])).

(* ================================================================= *)
(** ** Placeholders *)

(** [re.findall] for the pattern [{([^{}]+)}], which both engines use
    to list the placeholders of a template: at a
    position where an opening brace, one or more characters other than
    braces and a closing brace follow, the text between the braces is
    reported and the scan resumes after the closing brace; elsewhere the
    scan moves on by one character. *)
Fixpoint span_not_brace (s : pystr) : pystr * pystr :=
  match s with
  | [] => ([], [])
  | c :: s' =>
    if is_brace c then ([], s)
    else let '(n, rest) := span_not_brace s' in (c :: n, rest)
  end.

Definition match_placeholder (s : pystr) : option (pystr * pystr) :=
  match s with
  | c :: s' =>
    if is_lbrace c then
      match span_not_brace s' with
      | ((_ :: _) as name, c' :: rest) =>
        if is_rbrace c' then Some (name, rest) else None
      | _ => None
      end
    else None
  | [] => None
  end.

Fixpoint findall_fuel (fuel : nat) (s : pystr) : list pystr :=
  match fuel with
  | O => []
  | S f =>
    match s with
    | [] => []
    | _ :: s' =>
      match match_placeholder s with
      | Some (name, rest) => name :: findall_fuel f rest
      | None => findall_fuel f s'
      end
    end
  end.

Definition findall (s : pystr) : list pystr := findall_fuel (length s) s.

(** The f-string that puts braces around a placeholder name. *)
Definition braced (placeholder : pystr) : pystr :=
  str "{" ++ placeholder ++ str "}".

(* ================================================================= *)
(** ** [NamingEngine] *)

Module NamingEngine.

Record t : Type := Build { pattern : pystr }.

Definition DEFAULT_PATTERN : pystr := str "{datetime}_{original_filename}".

(** The pattern of [_validate_pattern], without its anchors: any
    number of characters other than braces, then any number of groups
    made of an opening brace, one or more \w, a closing brace and any
    number of characters other than braces. *)
Definition not_brace : regex := Class (fun c => negb (is_brace c)).
Definition placeholder_format : regex :=
  Cat (Star not_brace)
      (Star (Cat (Class is_lbrace)
            (Cat (Plus (Class is_word))
            (Cat (Class is_rbrace) (Star not_brace))))).

Definition _validate_pattern (pattern : pystr) : Logged unit :=
  if negb (truthy pattern) then
    lraise (ValueError (str "Naming pattern cannot be empty"))
  else if negb (count "{" pattern =? count "}" pattern) then
    lraise (ValueError (str "Naming pattern has unbalanced braces"))
  else if negb (re_match_anchored placeholder_format pattern) then
    lraise (ValueError (str "Naming pattern has invalid placeholder format"))
  else
    llog DEBUG (str "Naming pattern validated: %s") [pattern].

(** [NamingEngine(pattern)]: [pattern or DEFAULT_PATTERN] takes the
    default for [None] and for the empty string. *)
Definition __init__ (pattern : option pystr) : Logged t :=
  let pattern :=
    match pattern with
    | Some p => if truthy p then p else DEFAULT_PATTERN
    | None => DEFAULT_PATTERN
    end in
  _ ← _validate_pattern pattern;
  mret (Build pattern).

(** The body of the loop of [generate_filename]. *)
Definition substitute (metadata : metadata) (new_filename placeholder : pystr)
  : Logged pystr :=
  missing ←
    (if negb (contains metadata placeholder) then mret true
     else v ← getitem metadata placeholder; mret (negb (truthy v)));
  value ←
    (if missing : bool then
       _ ← llog WARNING (str "Placeholder '%s' not found in metadata or empty")
                [placeholder];
       mret []
     else getitem metadata placeholder);
  mret (replace (braced placeholder) value new_filename).

Definition generate_filename (self : t) (metadata : metadata) : Logged pystr :=
  let placeholders := findall (pattern self) in
  new_filename ← lfor placeholders (pattern self) (substitute metadata);
  let new_filename := _clean_filename new_filename in
  has_ext ←
    (if contains metadata (str "extension") then
       v ← getitem metadata (str "extension"); mret (truthy v)
     else mret false);
  if has_ext : bool then
    ext ← getitem metadata (str "extension");
    mret (new_filename ++ str "." ++ ext)
  else mret new_filename.

End NamingEngine.

(* ================================================================= *)
(** ** [os.path] on POSIX *)

Module posixpath.

Definition startswith (p s : pystr) : bool :=
  bool_decide (is_Some (strip_prefix p s)).
Definition endswith (p s : pystr) : bool := startswith (rev p) (rev s).

(** [s.rfind(c)]: the index of the last [c], or -1. *)
Fixpoint rfind_from (c : ascii) (i : Z) (found : Z) (s : pystr) : Z :=
  match s with
  | [] => found
  | x :: s' => rfind_from c (i + 1) (if Ascii.eqb x c then i else found) s'
  end.
Definition rfind (c : ascii) (s : pystr) : Z := rfind_from c 0 (-1) s.

(** The slices [s[:i]], [s[i:]] and [s[i:j]] for indices that are not
    negative. *)
Definition upto (i : Z) (s : pystr) : pystr := take (Z.to_nat i) s.
Definition from (i : Z) (s : pystr) : pystr := drop (Z.to_nat i) s.
Definition slice (i j : Z) (s : pystr) : pystr := take (Z.to_nat (j - i)) (from i s).

(** [s.split(sep)] for a one-character separator. *)
Fixpoint split (sep : ascii) (s : pystr) : list pystr :=
  match s with
  | [] => [[]]
  | c :: s' =>
    if Ascii.eqb c sep then [] :: split sep s'
    else match split sep s' with
         | seg :: segs => (c :: seg) :: segs
         | [] => [[c]]
         end
  end.

(** [sep.join(parts)] *)
Fixpoint sep_join (sep : pystr) (parts : list pystr) : pystr :=
  match parts with
  | [] => []
  | [x] => x
  | x :: rest => x ++ sep ++ sep_join sep rest
  end.

Definition isabs (s : pystr) : bool := startswith (str "/") s.

(** [os.path.join(a, b)] *)
Definition join (a b : pystr) : pystr :=
  if startswith (str "/") b then b
  else if negb (truthy a) || endswith (str "/") a then a ++ b
  else a ++ str "/" ++ b.

Definition all_slashes (s : pystr) : bool :=
  bool_decide (s = repeat "/"%char (length s)).

Definition dirname (p : pystr) : pystr :=
  let i := (rfind "/" p + 1)%Z in
  let head := upto i p in
  if truthy head && negb (all_slashes head) then rstrip (str "/") head else head.

Definition basename (p : pystr) : pystr :=
  let i := (rfind "/" p + 1)%Z in
  from i p.

(** [os.path.splitext(p)]: the extension starts at the last dot, when
    that dot comes after the last slash and some character between the
    two is not a dot. *)
Definition splitext (p : pystr) : pystr * pystr :=
  let sepIndex := rfind "/" p in
  let dotIndex := rfind "." p in
  if (sepIndex <? dotIndex)%Z
     && negb (forallb (fun c => Ascii.eqb c ".") (slice (sepIndex + 1) dotIndex p))
  then (upto dotIndex p, from dotIndex p)
  else (p, []).

(** [os.path.normpath(path)] *)
Definition normpath_step (initial_slashes : nat) (new_comps : list pystr)
    (comp : pystr) : list pystr :=
  if bool_decide (comp = []) || bool_decide (comp = str ".") then new_comps
  else if negb (bool_decide (comp = str ".."))
          || (bool_decide (initial_slashes = 0) && bool_decide (new_comps = []))
          || (negb (bool_decide (new_comps = []))
              && bool_decide (last new_comps = Some (str "..")))
       then new_comps ++ [comp]
  else if negb (bool_decide (new_comps = [])) then removelast new_comps
  else new_comps.

Definition normpath (path : pystr) : pystr :=
  if negb (truthy path) then str "."
  else
    let initial_slashes :=
      if startswith (str "/") path then
        if startswith (str "//") path && negb (startswith (str "///") path)
        then 2 else 1
      else 0 in
    let comps := split "/" path in
    let comps := fold_left (normpath_step initial_slashes) comps [] in
    let path := sep_join (str "/") comps in
    let path := repeat "/"%char initial_slashes ++ path in
    if truthy path then path else str ".".

(** [os.path.abspath(path)], given the current directory. *)
Definition abspath (cwd path : pystr) : pystr :=
  let path := if negb (isabs path) then join cwd path else path in
  normpath path.

End posixpath.

(* ================================================================= *)
(** ** The filesystem and the state of a run *)

(** What the engines ask of the operating system.  [existing] is the
    finite set of paths for which [os.path.exists] holds, [regular] the
    set for which [os.path.isfile] holds; the three operations that
    change the filesystem return the exception they raise, if any, and
    the new state. *)
Class FileSystem : Type := {
  fs_state : Type;
  existing : fs_state -> gset pystr;
  regular : fs_state -> gset pystr;
  getcwd : fs_state -> pystr;
  makedirs : pystr -> fs_state -> option exn * fs_state;
  shutil_move : pystr -> pystr -> fs_state -> option exn * fs_state;
  shutil_copy2 : pystr -> pystr -> fs_state -> option exn * fs_state
}.

(** The calls made to the operating system, in order. *)
Inductive fs_op : Type :=
| OpExists (path : pystr)
| OpIsfile (path : pystr)
| OpGetcwd
| OpMakedirs (path : pystr)
| OpMove (src dst : pystr)
| OpCopy2 (src dst : pystr).

(** A call that only asks about a path. *)
Definition is_check (op : fs_op) : bool :=
  match op with
  | OpExists _ | OpIsfile _ => true
  | _ => false
  end.

Section Run.
Context `{FileSystem}.

Record world : Type := World {
  w_fs : fs_state;
  w_log : list log_record;
  w_ops : list fs_op
}.

(** Code that may raise, log and use the filesystem. *)
Definition Py (A : Type) : Type := world -> result A * world.

#[export] Instance py_ret : MRet Py := fun A a w => (Ok a, w).
#[export] Instance py_bind : MBind Py := fun A B f c w =>
  match c w with
  | (Ok a, w') => f a w'
  | (Raise e, w') => (Raise e, w')
  | (Diverge, w') => (Diverge, w')
  end.

Definition raise {A} (e : exn) : Py A := fun w => (Raise e, w).
Definition diverge {A} : Py A := fun w => (Diverge, w).

(** [try: body  except Exception as e: handler(e)] *)
Definition try_except {A} (body : Py A) (handler : exn -> Py A) : Py A :=
  fun w =>
    match body w with
    | (Raise e, w') => handler e w'
    | r => r
    end.

(** Code of the naming engine, run in this state. *)
Definition lift {A} (c : Logged A) : Py A :=
  fun w => (fst c, World (w_fs w) (w_log w ++ snd c) (w_ops w)).

Definition log (lvl : log_level) (fmt : pystr) (args : list pystr) : Py unit :=
  lift (llog lvl fmt args).

Definition called (op : fs_op) (w : world) : world :=
  World (w_fs w) (w_log w) (w_ops w ++ [op]).

Definition os_path_exists (path : pystr) : Py bool :=
  fun w => (Ok (bool_decide (path ∈ existing (w_fs w))), called (OpExists path) w).

Definition os_path_isfile (path : pystr) : Py bool :=
  fun w => (Ok (bool_decide (path ∈ regular (w_fs w))), called (OpIsfile path) w).

Definition os_getcwd : Py pystr :=
  fun w => (Ok (getcwd (w_fs w)), called OpGetcwd w).

Definition change (op : fs_op) (f : fs_state -> option exn * fs_state) : Py unit :=
  fun w =>
    let '(raised, fs') := f (w_fs w) in
    (match raised with Some e => Raise e | None => Ok tt end,
     World fs' (w_log w) (w_ops w ++ [op])).

Definition os_makedirs (path : pystr) : Py unit :=
  change (OpMakedirs path) (makedirs path).
Definition shutil_move_ (src dst : pystr) : Py unit :=
  change (OpMove src dst) (shutil_move src dst).
Definition shutil_copy2_ (src dst : pystr) : Py unit :=
  change (OpCopy2 src dst) (shutil_copy2 src dst).

Definition os_path_abspath (path : pystr) : Py pystr :=
  if negb (posixpath.isabs path) then
    cwd ← os_getcwd;
    mret (posixpath.normpath (posixpath.join cwd path))
  else mret (posixpath.normpath path).

(* ----------------------------------------------------------------- *)
(** *** [NamingEngine.handle_duplicates] *)

(** The [while] loop: [fuel] bounds the number of checks. *)
Fixpoint handle_duplicates_loop (fuel : nat) (directory name ext : pystr)
    (counter : Z) (new_filepath : pystr) : Py pystr :=
  match fuel with
  | O => diverge
  | S fuel' =>
    found ← os_path_exists new_filepath;
    if found : bool then
      let new_name := name ++ str "_" ++ str_of_int counter ++ ext in
      let new_filepath := posixpath.join directory new_name in
      handle_duplicates_loop fuel' directory name ext (counter + 1) new_filepath
    else mret new_filepath
  end.

(** The loop is given two checks more than there are existing paths. *)
Definition handle_duplicates (self : NamingEngine.t) (filepath : pystr) : Py pystr :=
  found ← os_path_exists filepath;
  if negb found then mret filepath
  else
    let directory := posixpath.dirname filepath in
    let filename := posixpath.basename filepath in
    let '(name, ext) := posixpath.splitext filename in
    let counter := 1%Z in
    let new_filepath := filepath in
    new_filepath ← (fun w =>
      handle_duplicates_loop (2 + size (existing (w_fs w)))
        directory name ext counter new_filepath w);
    _ ← log INFO (str "Resolved duplicate: %s -> %s") [filepath; new_filepath];
    mret new_filepath.

End Run.

(* ================================================================= *)
(** ** [OrganizationEngine] *)

Module OrganizationEngine.

Record t : Type := Build {
  destination : pystr;
  hierarchy_pattern : pystr
}.

Definition HIERARCHY_TEMPLATES : gmap pystr pystr :=
  list_to_map
    [ (str "flat", str "");
      (str "date", str "{year}/{month}/{day}");
      (str "year_month", str "{year}/{month}");
      (str "year", str "{year}");
      (str "camera", str "{camera}");
      (str "camera_date", str "{camera}/{year}/{month}/{day}");
      (str "year_camera", str "{year}/{camera}") ].

(** The inner loop of [determine_destination_path]: one placeholder of
    a segment. *)
Definition substitute (metadata : metadata) (segment_value placeholder : pystr)
  : Logged pystr :=
  present ←
    (if contains metadata placeholder then
       v ← getitem metadata placeholder; mret (truthy v)
     else mret false);
  if present : bool then
    value ← getitem metadata placeholder;
    mret (replace (braced placeholder) value segment_value)
  else
    mret (replace (braced placeholder) (str "unknown") segment_value).

(** The outer loop: one segment of the hierarchy pattern. *)
Definition add_segment (metadata : metadata) (dest_path segment : pystr)
  : Logged pystr :=
  if negb (truthy segment) then mret dest_path
  else
    let placeholders := findall segment in
    segment_value ← lfor placeholders segment (substitute metadata);
    mret (posixpath.join dest_path segment_value).

Definition determine_destination_path (self : t) (metadata : metadata)
  : Logged pystr :=
  let dest_path := destination self in
  if negb (truthy (hierarchy_pattern self)) then mret dest_path
  else
    let hierarchy_segments := posixpath.split "/" (hierarchy_pattern self) in
    lfor hierarchy_segments dest_path (add_segment metadata).

Section WithFileSystem.
Context `{FileSystem}.

Definition __init__ (destination : pystr) (hierarchy : option pystr) : Py t :=
  destination ← os_path_abspath destination;
  hierarchy_pattern ←
    match hierarchy with
    | None => mret []
    | Some h =>
      if bool_decide (h = str "flat") then mret []
      else if contains HIERARCHY_TEMPLATES h then lift (getitem HIERARCHY_TEMPLATES h)
      else mret h
    end;
  _ ← log INFO (str "Destination directory: %s") [destination];
  _ ← log INFO (str "Hierarchy pattern: %s") [hierarchy_pattern];
  mret (Build destination hierarchy_pattern).

Definition _ensure_directory_exists (directory : pystr) : Py unit :=
  found ← os_path_exists directory;
  if negb found then
    _ ← os_makedirs directory;
    log DEBUG (str "Created directory: %s") [directory]
  else mret tt.

Definition organize_file (self : t) (source_path : pystr) (metadata : metadata)
    (new_filename : pystr) (dry_run move : bool) : Py (pystr * pystr) :=
  is_file ← os_path_isfile source_path;
  if negb is_file then
    _ ← log ERROR (str "Source file not found: %s") [source_path];
    raise (FileNotFoundError (str "Source file not found: " ++ source_path))
  else
    dest_dir ← lift (determine_destination_path self metadata);
    let dest_path := posixpath.join dest_dir new_filename in
    naming ← lift (NamingEngine.__init__ None);
    dest_path ← handle_duplicates naming dest_path;
    let operation := if move then str "Moving" else str "Copying" in
    _ ← log INFO (str "%s: %s -> %s%s")
          [operation; source_path; dest_path;
           if dry_run then str " (dry run)" else []];
    if dry_run then mret (source_path, dest_path)
    else
      _ ← _ensure_directory_exists dest_dir;
      _ ← try_except
            (if move then shutil_move_ source_path dest_path
             else shutil_copy2_ source_path dest_path)
            (fun e =>
               if is_OSError e then
                 _ ← log ERROR (str "Failed to %s file: %s -> %s: %s")
                       [if move then str "move" else str "copy";
                        source_path; dest_path; exn_str e];
                 raise e
               else raise e);
      mret (source_path, dest_path).

(** The loop of [organize_files] over the zipped lists. *)
Fixpoint organize_each (self : t) (items : list (metadata * pystr))
    (dry_run move : bool) (results : list (pystr * pystr))
  : Py (list (pystr * pystr)) :=
  match items with
  | [] => mret results
  | (metadata, new_filename) :: items' =>
    source_path ← lift (getitem metadata (str "file_path"));
    results ←
      try_except
        (result ← organize_file self source_path metadata new_filename dry_run move;
         mret (results ++ [result]))
        (fun e =>
           _ ← log ERROR (str "Failed to organize file %s: %s")
                 [source_path; exn_str e];
           mret (results ++ [(source_path, exn_str e)]));
    organize_each self items' dry_run move results
  end.

Definition organize_files (self : t) (files_metadata : list metadata)
    (new_filenames : list pystr) (dry_run move : bool)
  : Py (list (pystr * pystr)) :=
  if negb (length files_metadata =? length new_filenames) then
    raise (ValueError (str "Length of files_metadata and new_filenames must match"))
  else
    organize_each self (zip files_metadata new_filenames) dry_run move [].

End WithFileSystem.
End OrganizationEngine.

(* ================================================================= *)
(** ** A small filesystem, to run the engines on *)

(** Files and directories by path; nothing can be created in a locked
    directory. *)
Record disk : Type := Disk {
  disk_files : gset pystr;
  disk_dirs : gset pystr;
  disk_locked : gset pystr;
  disk_cwd : pystr
}.

Definition permission_denied (path : pystr) : exn :=
  PermissionError (str "[Errno 13] Permission denied: " ++ path).

Definition disk_makedirs (path : pystr) (d : disk) : option exn * disk :=
  if bool_decide (posixpath.dirname path ∈ disk_locked d) then
    (Some (permission_denied path), d)
  else
    (None, Disk (disk_files d) (disk_dirs d ∪ {[path]}) (disk_locked d) (disk_cwd d)).

Definition disk_copy2 (src dst : pystr) (d : disk) : option exn * disk :=
  if negb (bool_decide (src ∈ disk_files d)) then
    (Some (FileNotFoundError (str "[Errno 2] No such file or directory: " ++ src)), d)
  else if bool_decide (posixpath.dirname dst ∈ disk_locked d) then
    (Some (permission_denied dst), d)
  else
    (None, Disk (disk_files d ∪ {[dst]}) (disk_dirs d) (disk_locked d) (disk_cwd d)).

Definition disk_move (src dst : pystr) (d : disk) : option exn * disk :=
  match disk_copy2 src dst d with
  | (None, d') =>
    (None, Disk (disk_files d' ∖ {[src]}) (disk_dirs d') (disk_locked d') (disk_cwd d'))
  | r => r
  end.

#[export] Instance disk_filesystem : FileSystem := {|
  fs_state := disk;
  existing d := disk_files d ∪ disk_dirs d;
  regular := disk_files;
  getcwd := disk_cwd;
  makedirs := disk_makedirs;
  shutil_move := disk_move;
  shutil_copy2 := disk_copy2
|}.

Definition paths (l : list string) : gset pystr := list_to_set (map str l).

(** The state in which a run on a disk starts. *)
Definition on_disk (d : disk) : @world disk_filesystem := World d [] [].

(** Attribute maps for the examples. *)
Definition md (l : list (string * string)) : metadata :=
  list_to_map (map (fun '(k, v) => (str k, str v)) l).

(** Three photographs to be filed by year under [/out], where nothing
    can be created in [/out/2022]. *)
Definition example_disk : disk :=
  Disk (paths ["/in/a.jpg"; "/in/b.jpg"; "/in/c.jpg"])
       (paths ["/in"; "/out"; "/out/2022"])
       (paths ["/out/2022"])
       (str "/").

Definition example_engine : OrganizationEngine.t :=
  OrganizationEngine.Build (str "/out") (str "{year}").

Definition example_a : metadata := md [("file_path", "/in/a.jpg"); ("year", "2021")].
Definition example_b : metadata := md [("file_path", "/in/b.jpg"); ("year", "2022")].
Definition example_c : metadata := md [("file_path", "/in/c.jpg"); ("year", "2023")].

(* ================================================================= *)
(** ** [MetadataExtractor.is_supported_file] *)

(** [s.lower()]: below 256 the capitals are the ASCII ones and 192 to
    222 without the multiplication sign 215; each becomes the character
    32 places further, and every other character is kept. *)
Definition lower_char (c : ascii) : ascii :=
  let n := nat_of_ascii c in
  if ((65 <=? n) && (n <=? 90))
     || ((192 <=? n) && (n <=? 222) && negb (n =? 215))
  then ascii_of_nat (n + 32) else c.

Definition lower (s : pystr) : pystr := map lower_char s.

Module MetadataExtractor.

(** The extractor, with the list of extensions it was given.  Its
    constructor starts the external tool and is not part of this
    development. *)
Record t : Type := Build { file_types : list pystr }.

Definition is_supported_file (self : t) (filename : pystr) : bool :=
  let ext := lstrip (str ".") (lower (snd (posixpath.splitext filename))) in
  bool_decide (ext ∈ file_types self).

End MetadataExtractor.

(* ================================================================= *)
(** * The vocabulary of the properties *)

(** A name is clean when it has no reserved character. *)
Definition reserved_free (s : pystr) : Prop :=
  Forall (fun c => is_invalid_char c = false) s.

(** No underscore is followed by an underscore. *)
Fixpoint single_underscores (s : pystr) : bool :=
  match s with
  | [] => true
  | c :: s' =>
    match s' with
    | c' :: _ => negb (is_underscore c && is_underscore c') && single_underscores s'
    | [] => true
    end
  end.

(** Text without an opening brace, and text without any brace. *)
Definition lbrace_free (s : pystr) : Prop := Forall (fun c => is_lbrace c = false) s.

Definition brace_free (s : pystr) : Prop := Forall (fun c => is_brace c = false) s.

(** A template read in one pass: literal text and placeholders. *)
Inductive token : Type :=
| Lit (text : pystr)
| Ph (name : pystr).

Definition token_text (t : token) : pystr :=
  match t with
  | Lit s => s
  | Ph n => braced n
  end.

Definition template_text (ts : list token) : pystr := flat_map token_text ts.

(** The placeholder names of a template, in order, with repetitions. *)
Definition names (ts : list token) : list pystr :=
  flat_map (fun t => match t with Ph n => [n] | Lit _ => [] end) ts.

(** Literal text has no opening brace; a name is not empty and has no
    brace. *)
Definition token_ok (t : token) : Prop :=
  match t with
  | Lit s => lbrace_free s
  | Ph n => n <> [] /\ brace_free n
  end.

(** The single-pass rendering: every placeholder becomes [val name],
    literal text is copied. *)
Definition render (val : pystr -> pystr) (ts : list token) : pystr :=
  flat_map (fun t => match t with Lit s => s | Ph n => val n end) ts.

(** What one [replace] of [{p}] by [v] does to the tokens. *)
Definition subst_token (p v : pystr) (t : token) : token :=
  match t with
  | Lit s => Lit s
  | Ph n => if bool_decide (n = p) then Lit v else Ph n
  end.

(** What the replacements for all of [ps] do to a token. *)
Definition subst_tokens (val : pystr -> pystr) (ps : list pystr) (t : token) : token :=
  match t with
  | Lit s => Lit s
  | Ph n => if bool_decide (n ∈ ps) then Lit (val n) else Ph n
  end.

(** The loops of both engines, without their logging: one [replace] per
    placeholder, each on the result of the one before. *)
Definition replace_each (val : pystr -> pystr) (ps : list pystr) (s : pystr) : pystr :=
  fold_left (fun s p => replace (braced p) (val p) s) ps s.

(** Two texts part ways: at some position that both have, their
    characters differ.  Neither is then the beginning of the other. *)
Fixpoint apart (a b : pystr) : bool :=
  match a, b with
  | x :: a', y :: b' => if Ascii.eqb x y then apart a' b' else true
  | _, _ => false
  end.

(** No occurrence of [old] begins in [v], whatever text follows [v]:
    from every position of [v] on, the text parts ways with [old].  So
    [v] does not contain [old], and does not end with a beginning of
    [old] that what follows could complete. *)
Fixpoint inert (old v : pystr) : bool :=
  match v with
  | [] => true
  | _ :: v' => apart old v && inert old v'
  end.

(** The condition under which the successive replacements for the names
    [ns] (the placeholders in template order, with repetitions) never
    touch a value already inserted: the value of each placeholder is
    inert for every placeholder listed after it. *)
Fixpoint single_pass_safe (val : pystr -> pystr) (ns : list pystr) : bool :=
  match ns with
  | [] => true
  | p :: ns' =>
    forallb (fun q => inert (braced q) (val p)) ns' && single_pass_safe val ns'
  end.

(** A token that a replacement of [{q}] leaves alone or replaces as a
    whole: inserted or literal text that is inert for [{q}], or a
    placeholder. *)
Definition token_inert (q : pystr) (t : token) : Prop :=
  match t with
  | Lit s => inert (braced q) s = true
  | Ph n => n <> [] /\ brace_free n
  end.

(** A segment of a hierarchy read as tokens: its text is not empty and
    has no slash. *)
Definition segment_ok (seg : list token) : Prop :=
  Forall token_ok seg /\ template_text seg <> [] /\
  Forall (fun c => c <> "/"%char) (template_text seg).

(** The value an engine substitutes for a placeholder: the attribute,
    or [default] when it is absent or empty. *)
Definition value_or (default : pystr) (metadata : metadata) (placeholder : pystr) : pystr :=
  match metadata !! placeholder with
  | Some v => if truthy v then v else default
  | None => default
  end.

(** The placeholder is absent from the map, or its value is empty. *)
Definition missing (metadata : metadata) (placeholder : pystr) : bool :=
  match metadata !! placeholder with
  | Some v => negb (truthy v)
  | None => true
  end.

(** What stands for a placeholder in the result: [default] when the
    attribute is absent or empty, the attribute otherwise. *)
Definition degraded (default : pystr) (metadata : metadata) (placeholder : pystr) : pystr :=
  if missing metadata placeholder then default
  else match metadata !! placeholder with
       | Some v => v
       | None => default
       end.

Definition placeholder_warning (placeholder : pystr) : log_record :=
  Log WARNING (str "Placeholder '%s' not found in metadata or empty") [placeholder].

(** The extension that [generate_filename] appends. *)
Definition extension_suffix (metadata : metadata) : pystr :=
  match metadata !! str "extension" with
  | Some ext => if truthy ext then str "." ++ ext else []
  | None => []
  end.

(** The tokens of a valid template: literal text without braces, names
    made of one or more word characters. *)
Definition word_token_ok (t : token) : Prop :=
  match t with
  | Lit s => brace_free s
  | Ph n => n <> [] /\ Forall (fun c => is_word c = true) n
  end.

(** The pattern reads as such tokens. *)
Definition word_template (pattern : pystr) : Prop :=
  exists ts, Forall word_token_ok ts /\ template_text ts = pattern.

(** The check in the words of the specification, in one pass: braces
    open and close in turn, and the name between them is not empty (so
    it has no brace); the pattern itself is not empty.  [inside] is the
    number of characters of the name being read, if any. *)
Fixpoint spec_scan (inside : option nat) (s : pystr) : bool :=
  match s with
  | [] => match inside with None => true | Some _ => false end
  | c :: s' =>
    if is_lbrace c then
      match inside with None => spec_scan (Some 0) s' | Some _ => false end
    else if is_rbrace c then
      match inside with Some (S _) => spec_scan None s' | _ => false end
    else
      match inside with
      | None => spec_scan None s'
      | Some n => spec_scan (Some (S n)) s'
      end
  end.

Definition spec_valid_template (pattern : pystr) : bool :=
  truthy pattern && spec_scan None pattern.

(** One group of the pattern: a placeholder and the literal text after
    it. *)
Definition group : regex :=
  Cat (Class is_lbrace)
    (Cat (Plus (Class is_word)) (Cat (Class is_rbrace) (Star NamingEngine.not_brace))).

(** The text that [determine_destination_path] makes of one segment. *)
Definition segment_value (metadata : metadata) (segment : pystr) : pystr :=
  replace_each (value_or (str "unknown") metadata) (findall segment) segment.

Definition add_segment_value (metadata : metadata) (dest_path segment : pystr) : pystr :=
  if truthy segment then posixpath.join dest_path (segment_value metadata segment)
  else dest_path.

(** The path probed for the counter [k]. *)
Definition candidate (directory name ext : pystr) (k : Z) : pystr :=
  posixpath.join directory (name ++ str "_" ++ str_of_int k ++ ext).

(** [p] is the path chosen for [filepath] among the existing paths [E]:
    [filepath] itself when it is free, else the first free candidate
    [stem_1.ext], [stem_2.ext], ... in its directory, all candidates
    before it being taken. *)
Definition first_free (E : gset pystr) (filepath p : pystr) : Prop :=
  let directory := posixpath.dirname filepath in
  let name := fst (posixpath.splitext (posixpath.basename filepath)) in
  let ext := snd (posixpath.splitext (posixpath.basename filepath)) in
  (p ∉ E) /\
  (((filepath ∉ E) /\ p = filepath) \/
   (filepath ∈ E /\
    exists j, (1 <= j)%Z /\ p = candidate directory name ext j /\
      forall i, (1 <= i < j)%Z -> candidate directory name ext i ∈ E)).

(** A path component that [normpath] keeps: not empty, not a dot or two
    dots, without a slash. *)
Definition component_ok (comp : pystr) : Prop :=
  comp <> [] /\ comp <> str "." /\ comp <> str ".." /\
  Forall (fun c => c <> "/"%char) comp.

(** An absolute path in normal form: one slash, then such components
    with one slash between them. *)
Definition normal_absolute (path : pystr) : Prop :=
  exists comps, path = "/"%char :: posixpath.sep_join (str "/") comps /\
                Forall component_ok comps.

Section Computations.
Context `{FileSystem}.

(** A computation that leaves the filesystem and asks only about
    paths. *)
Definition checks_only {A} (c : Py A) : Prop :=
  forall w,
    w_fs (snd (c w)) = w_fs w /\
    exists ops, w_ops (snd (c w)) = w_ops w ++ ops /\
                Forall (fun op => is_check op = true) ops.

(** A computation that has an outcome: a value or an exception. *)
Definition returns {A} (c : Py A) : Prop := forall w, fst (c w) <> Diverge.

End Computations.

(** The directory [determine_destination_path] gives, as a value. *)
Definition destination_of (self : OrganizationEngine.t) (metadata : metadata) : pystr :=
  if truthy (OrganizationEngine.hierarchy_pattern self) then
    fold_left (add_segment_value metadata)
      (posixpath.split "/" (OrganizationEngine.hierarchy_pattern self))
      (OrganizationEngine.destination self)
  else OrganizationEngine.destination self.

(** The attribute map names the file it describes. *)
Definition has_file_path (metadata : metadata) : Prop :=
  is_Some (metadata !! str "file_path").

(** The entry that the loop of [organize_files] adds for one file, and
    the state it leaves, given the outcome of [organize_file]. *)
Definition entry_of `{FileSystem} (source_path : pystr)
    (outcome : result (pystr * pystr) * world) : (pystr * pystr) * world :=
  match outcome with
  | (Ok r, w) => (r, w)
  | (Raise e, w) =>
    ((source_path, exn_str e),
     World (w_fs w)
       (w_log w ++ [Log ERROR (str "Failed to organize file %s: %s")
                      [source_path; exn_str e]])
       (w_ops w))
  | (Diverge, w) => ((source_path, []), w)
  end.

(** The entry that a simulation gives the file of [item] on the
    filesystem [fs]: source and chosen destination when the source is a
    regular file, source and the text of the error when it is not. *)
Definition planned `{FileSystem} (fs : fs_state) (self : OrganizationEngine.t)
    (item : metadata * pystr) (entry : pystr * pystr) : Prop :=
  exists source_path,
    fst item !! str "file_path" = Some source_path /\
    ((source_path ∈ regular fs /\
      fst entry = source_path /\
      first_free (existing fs)
        (posixpath.join (destination_of self (fst item)) (snd item)) (snd entry)) \/
     ((source_path ∉ regular fs) /\
      entry = (source_path, str "Source file not found: " ++ source_path))).

(* ================================================================= *)
(** * Properties *)

(* ================================================================= *)
(** ** Sanitization *)

Lemma sub_invalid_chars_reserved_free s : reserved_free (sub_invalid_chars s).
Proof.
  unfold reserved_free, sub_invalid_chars.
  induction s as [|c s IH]; simpl; constructor; auto.
  destruct (is_invalid_char c) eqn:E; [reflexivity | exact E].
Qed.

Lemma sub_invalid_chars_id s : reserved_free s -> sub_invalid_chars s = s.
Proof.
  unfold reserved_free, sub_invalid_chars.
  induction 1 as [|c s Hc _ IH]; simpl; [reflexivity|].
  rewrite Hc, IH. reflexivity.
Qed.

Lemma sub_underscore_runs_Forall (P : ascii -> Prop) s :
  Forall P s -> Forall P (sub_underscore_runs s).
Proof.
  induction 1 as [|c s Hc Hs IH]; simpl; [constructor|].
  destruct (is_underscore c); [|constructor; assumption].
  destruct s as [|c' s']; [repeat constructor; assumption|].
  destruct (is_underscore c'); [assumption | constructor; assumption].
Qed.

Lemma sub_underscore_runs_head c s :
  is_underscore c = false ->
  sub_underscore_runs (c :: s) = c :: sub_underscore_runs s.
Proof. intros E. simpl. rewrite E. reflexivity. Qed.

Lemma single_underscores_cons2 c c' s :
  single_underscores (c :: c' :: s) =
  negb (is_underscore c && is_underscore c') && single_underscores (c' :: s).
Proof. reflexivity. Qed.

Lemma sub_underscore_runs_single s :
  single_underscores (sub_underscore_runs s) = true.
Proof.
  induction s as [|c s IH]; [reflexivity|].
  cbn [sub_underscore_runs].
  destruct (is_underscore c) eqn:Ec.
  - destruct s as [|c' s']; [reflexivity|].
    destruct (is_underscore c') eqn:Ec'; [exact IH|].
    rewrite sub_underscore_runs_head in * by assumption.
    rewrite single_underscores_cons2, Ec, Ec'. exact IH.
  - destruct (sub_underscore_runs s) eqn:Es; [reflexivity|].
    rewrite single_underscores_cons2, Ec. exact IH.
Qed.

Lemma sub_underscore_runs_id s :
  single_underscores s = true -> sub_underscore_runs s = s.
Proof.
  induction s as [|c s IH]; [reflexivity|].
  destruct s as [|c' s']; [simpl; destruct (is_underscore c); reflexivity|].
  rewrite single_underscores_cons2. intros Hs.
  apply andb_true_iff in Hs as [Hcc Hs].
  change (sub_underscore_runs (c :: c' :: s')) with
    (if is_underscore c
     then if is_underscore c' then sub_underscore_runs (c' :: s')
          else c :: sub_underscore_runs (c' :: s')
     else c :: sub_underscore_runs (c' :: s')).
  rewrite (IH Hs).
  destruct (is_underscore c), (is_underscore c'); simpl in Hcc; congruence.
Qed.

Lemma single_underscores_tail c s :
  single_underscores (c :: s) = true -> single_underscores s = true.
Proof.
  destruct s; [reflexivity|]. rewrite single_underscores_cons2.
  intros Hs. apply andb_true_iff in Hs as [_ Hs]. exact Hs.
Qed.

Lemma single_underscores_lstrip chars s :
  single_underscores s = true -> single_underscores (lstrip chars s) = true.
Proof.
  induction s as [|c s IH]; [reflexivity|]. intros Hs. simpl.
  destruct (char_in chars c); [|exact Hs].
  apply IH. eapply single_underscores_tail; eassumption.
Qed.

Lemma rstrip_cons chars c s :
  rstrip chars (c :: s) = [] \/
  rstrip chars (c :: s) = c :: rstrip chars s.
Proof.
  simpl. destruct (rstrip chars s) eqn:E.
  - destruct (char_in chars c); [left | right]; reflexivity.
  - right. reflexivity.
Qed.

Lemma single_underscores_rstrip chars s :
  single_underscores s = true -> single_underscores (rstrip chars s) = true.
Proof.
  induction s as [|c s IH]; [reflexivity|]. intros Hs.
  pose proof (IH (single_underscores_tail _ _ Hs)) as IH'.
  destruct (rstrip_cons chars c s) as [E|E]; rewrite E; [reflexivity|].
  destruct s as [|c' s']; [reflexivity|].
  destruct (rstrip_cons chars c' s') as [E'|E']; rewrite E' in *; [reflexivity|].
  rewrite single_underscores_cons2 in Hs |- *.
  apply andb_true_iff in Hs as [Hcc _]. rewrite Hcc. exact IH'.
Qed.

Lemma lstrip_Forall (P : ascii -> Prop) chars s :
  Forall P s -> Forall P (lstrip chars s).
Proof.
  induction 1 as [|c s Hc Hs IH]; simpl; [constructor|].
  destruct (char_in chars c); [assumption | constructor; assumption].
Qed.

Lemma rstrip_Forall (P : ascii -> Prop) chars s :
  Forall P s -> Forall P (rstrip chars s).
Proof.
  induction 1 as [|c s Hc Hs IH]; [constructor|].
  destruct (rstrip_cons chars c s) as [E|E]; rewrite E; constructor; assumption.
Qed.

Lemma lstrip_idempotent chars s : lstrip chars (lstrip chars s) = lstrip chars s.
Proof.
  induction s as [|c s IH]; [reflexivity|]. simpl.
  destruct (char_in chars c) eqn:E; [exact IH|]. simpl. rewrite E. reflexivity.
Qed.

Lemma rstrip_unfold chars c s :
  rstrip chars (c :: s) =
  match rstrip chars s with
  | [] => if char_in chars c then [] else [c]
  | r => c :: r
  end.
Proof. reflexivity. Qed.

Lemma rstrip_idempotent chars s : rstrip chars (rstrip chars s) = rstrip chars s.
Proof.
  induction s as [|c s IH]; [reflexivity|]. rewrite rstrip_unfold.
  destruct (rstrip chars s) as [|c' r] eqn:E.
  - destruct (char_in chars c) eqn:Ec; [reflexivity|]. simpl. rewrite Ec. reflexivity.
  - rewrite rstrip_unfold, IH. reflexivity.
Qed.

Lemma lstrip_rstrip chars s :
  lstrip chars s = s -> lstrip chars (rstrip chars s) = rstrip chars s.
Proof.
  destruct s as [|c s]; [reflexivity|]. intros Hl.
  assert (Hc : char_in chars c = false).
  { simpl in Hl. destruct (char_in chars c); [|reflexivity].
    exfalso. assert (Hlen : length (lstrip chars s) = S (length s)) by (rewrite Hl; reflexivity).
    clear Hl. assert (length (lstrip chars s) <= length s); [|lia].
    clear. induction s as [|a s IH]; simpl; [lia|].
    destruct (char_in chars a); simpl; lia. }
  rewrite rstrip_unfold.
  destruct (rstrip chars s); [rewrite Hc|]; simpl; rewrite Hc; reflexivity.
Qed.

Lemma strip_idempotent chars s : strip chars (strip chars s) = strip chars s.
Proof.
  unfold strip.
  rewrite (lstrip_rstrip chars (lstrip chars s)) by apply lstrip_idempotent.
  apply rstrip_idempotent.
Qed.

(** What the three steps of [_clean_filename] leave. *)
Lemma clean_steps_invariant s :
  let r := strip (str "_") (sub_underscore_runs (sub_invalid_chars s)) in
  reserved_free r /\ single_underscores r = true /\ strip (str "_") r = r.
Proof.
  intros r. subst r. split; [|split].
  - apply rstrip_Forall, lstrip_Forall, sub_underscore_runs_Forall,
      sub_invalid_chars_reserved_free.
  - apply single_underscores_rstrip, single_underscores_lstrip,
      sub_underscore_runs_single.
  - apply strip_idempotent.
Qed.

Lemma clean_filename_fixed r :
  reserved_free r -> single_underscores r = true -> strip (str "_") r = r ->
  r <> [] -> _clean_filename r = r.
Proof.
  intros H1 H2 H3 Hne. unfold _clean_filename.
  rewrite (sub_invalid_chars_id _ H1), (sub_underscore_runs_id _ H2), H3.
  destruct r; [contradiction | reflexivity].
Qed.

Lemma clean_filename_cases s :
  _clean_filename s = str "unnamed_file" \/
  (_clean_filename s = strip (str "_") (sub_underscore_runs (sub_invalid_chars s))
   /\ _clean_filename s <> []).
Proof.
  unfold _clean_filename.
  destruct (strip (str "_") (sub_underscore_runs (sub_invalid_chars s)));
    [left | right; split]; [reflexivity | reflexivity | discriminate].
Qed.

Lemma clean_filename_reserved_free s : reserved_free (_clean_filename s).
Proof.
  destruct (clean_filename_cases s) as [E|[E _]]; rewrite E.
  - unfold reserved_free. repeat constructor.
  - apply clean_steps_invariant.
Qed.

(** C9. Sanitization is idempotent: [_clean_filename] applied to a name
    it returned gives that name back. *)
Theorem clean_filename_idempotent (s : pystr) :
  _clean_filename (_clean_filename s) = _clean_filename s.
Proof.
  destruct (clean_filename_cases s) as [E|[E Hne]].
  - rewrite E. reflexivity.
  - destruct (clean_steps_invariant s) as (H1 & H2 & H3).
    rewrite <- E in H1, H2, H3. apply clean_filename_fixed; assumption.
Qed.

(* ================================================================= *)
(** ** Scanning: [str.replace] and [re.findall] *)

Arguments replace : simpl never.
Arguments findall : simpl never.
Arguments braced : simpl never.

Lemma strip_prefix_app p r : strip_prefix p (p ++ r) = Some r.
Proof.
  induction p as [|a p IH]; simpl; [destruct r; reflexivity|].
  rewrite Ascii.eqb_refl. exact IH.
Qed.

Lemma strip_prefix_Some p s r : strip_prefix p s = Some r -> s = p ++ r.
Proof.
  revert s. induction p as [|a p IH]; intros s Hs.
  - destruct s; simpl in *; congruence.
  - destruct s as [|b s]; simpl in Hs; [discriminate|].
    destruct (Ascii.eqb a b) eqn:E; [|discriminate].
    apply Ascii.eqb_eq in E. subst b. simpl. f_equal. apply IH. exact Hs.
Qed.

Lemma replace_fuel_enough old new f1 f2 s :
  old <> [] -> length s <= f1 -> length s <= f2 ->
  replace_fuel f1 old new s = replace_fuel f2 old new s.
Proof.
  intros Hold. revert f2 s. induction f1 as [|f1 IH]; intros f2 s H1 H2.
  - destruct s; [|simpl in H1; lia]. destruct f2; reflexivity.
  - destruct f2 as [|f2]; [destruct s; [reflexivity | simpl in H2; lia]|].
    destruct s as [|c s]; [reflexivity|].
    cbn [replace_fuel]. destruct (strip_prefix old (c :: s)) as [rest|] eqn:E.
    + apply strip_prefix_Some in E.
      assert (length rest <= length s).
      { apply (f_equal (@length ascii)) in E. rewrite length_app in E.
        destruct old; [contradiction|]. simpl in E. lia. }
      simpl in H1, H2. f_equal. apply IH; lia.
    + simpl in H1, H2. f_equal. apply IH; lia.
Qed.

(** The three equations that define [replace] for a non-empty [old]. *)
Lemma replace_nil old new : old <> [] -> replace old new [] = [].
Proof. destruct old; [contradiction | reflexivity]. Qed.

Lemma replace_occurrence old new rest :
  old <> [] -> replace old new (old ++ rest) = new ++ replace old new rest.
Proof.
  intros Hold. destruct old as [|a old]; [contradiction|].
  unfold replace. cbn [app length replace_fuel].
  change (a :: old ++ rest) with ((a :: old) ++ rest).
  rewrite strip_prefix_app. f_equal.
  apply replace_fuel_enough; [discriminate | rewrite length_app; lia | lia].
Qed.

Lemma replace_other old new c s :
  old <> [] -> strip_prefix old (c :: s) = None ->
  replace old new (c :: s) = c :: replace old new s.
Proof.
  intros Hold E. destruct old as [|a old]; [contradiction|].
  unfold replace. cbn [length replace_fuel]. rewrite E. reflexivity.
Qed.

Lemma braced_cons p : braced p = "{"%char :: p ++ ["}"%char].
Proof. reflexivity. Qed.

Lemma braced_nonempty p : braced p <> [].
Proof. rewrite braced_cons. discriminate. Qed.

Lemma brace_free_lbrace_free s : brace_free s -> lbrace_free s.
Proof.
  induction 1 as [|c s Hc _ IH]; constructor; [|exact IH].
  unfold is_brace in Hc. apply orb_false_iff in Hc. tauto.
Qed.

Lemma is_rbrace_not_lbrace c : is_rbrace c = true -> is_lbrace c = false.
Proof.
  unfold is_rbrace, is_lbrace. intros E. apply Ascii.eqb_eq in E. subst c. reflexivity.
Qed.

(** Two names without braces that are both followed by a closing brace
    end at the same place. *)
Lemma brace_free_app_rbrace_inj a b x y :
  brace_free a -> brace_free b ->
  a ++ "}"%char :: x = b ++ "}"%char :: y -> a = b /\ x = y.
Proof.
  revert b. induction a as [|c a IH]; intros [|d b] Ha Hb E; simpl in E.
  - split; congruence.
  - injection E as <- _. apply Forall_cons in Hb as [Hd _]. discriminate.
  - injection E as -> _. apply Forall_cons in Ha as [Hc _]. discriminate.
  - injection E as -> E. apply Forall_cons in Ha as [_ Ha].
    apply Forall_cons in Hb as [_ Hb].
    destruct (IH b Ha Hb E) as [-> ->]. split; reflexivity.
Qed.

Lemma replace_lbrace_free p v s rest :
  lbrace_free s ->
  replace (braced p) v (s ++ rest) = s ++ replace (braced p) v rest.
Proof.
  induction 1 as [|c s Hc Hs IH]; [reflexivity|]. simpl.
  rewrite replace_other, IH; [reflexivity | apply braced_nonempty |].
  rewrite braced_cons. cbn [strip_prefix]. unfold is_lbrace in Hc.
  rewrite Ascii.eqb_sym, Hc. reflexivity.
Qed.

Lemma replace_braced_same p v rest :
  replace (braced p) v (braced p ++ rest) = v ++ replace (braced p) v rest.
Proof. apply replace_occurrence, braced_nonempty. Qed.

Lemma replace_braced_other p n v rest :
  brace_free p -> brace_free n -> p <> n ->
  replace (braced p) v (braced n ++ rest) = braced n ++ replace (braced p) v rest.
Proof.
  intros Hp Hn Hne.
  assert (E1 : braced n ++ rest = "{"%char :: n ++ ["}"%char] ++ rest).
  { rewrite braced_cons. simpl. rewrite <- app_assoc. reflexivity. }
  rewrite E1. rewrite replace_other; [|apply braced_nonempty|].
  - rewrite replace_lbrace_free by (apply brace_free_lbrace_free; exact Hn).
    rewrite replace_lbrace_free by (repeat constructor).
    rewrite braced_cons. simpl. rewrite <- app_assoc. reflexivity.
  - destruct (strip_prefix (braced p) ("{"%char :: n ++ ["}"%char] ++ rest)) eqn:E;
      [|reflexivity].
    apply strip_prefix_Some in E. rewrite braced_cons in E. simpl in E.
    injection E as E. rewrite <- app_assoc in E. simpl in E.
    apply brace_free_app_rbrace_inj in E as [E _]; congruence.
Qed.

Lemma span_not_brace_name n c rest :
  brace_free n -> is_brace c = true ->
  span_not_brace (n ++ c :: rest) = (n, c :: rest).
Proof.
  intros Hn Hc. induction Hn as [|d n Hd Hn IH]; simpl.
  - rewrite Hc. reflexivity.
  - rewrite Hd, IH. reflexivity.
Qed.

Lemma match_placeholder_length s n rest :
  match_placeholder s = Some (n, rest) -> length rest < length s.
Proof.
  destruct s as [|c s]; simpl; [discriminate|].
  destruct (is_lbrace c); [|discriminate].
  assert (Hlen : forall t, length (snd (span_not_brace t)) <= length t).
  { induction t as [|d t IH]; simpl; [lia|].
    destruct (is_brace d); simpl; [lia|].
    destruct (span_not_brace t); simpl in *. lia. }
  specialize (Hlen s). destruct (span_not_brace s) as [[|a nm] [|c' r]]; try discriminate.
  destruct (is_rbrace c'); [|discriminate]. intros [= _ <-]. simpl in Hlen. lia.
Qed.

Lemma findall_fuel_enough f1 f2 s :
  length s <= f1 -> length s <= f2 -> findall_fuel f1 s = findall_fuel f2 s.
Proof.
  revert f2 s. induction f1 as [|f1 IH]; intros f2 s H1 H2.
  - destruct s; [|simpl in H1; lia]. destruct f2; reflexivity.
  - destruct f2 as [|f2]; [destruct s; [reflexivity | simpl in H2; lia]|].
    destruct s as [|c s]; [reflexivity|].
    cbn [findall_fuel].
    destruct (match_placeholder (c :: s)) as [[n rest]|] eqn:E.
    + apply match_placeholder_length in E. simpl in E, H1, H2.
      f_equal. apply IH; lia.
    + simpl in H1, H2. apply IH; lia.
Qed.

(** The equations that define [findall]. *)
Lemma findall_match s n rest :
  match_placeholder s = Some (n, rest) -> findall s = n :: findall rest.
Proof.
  intros E. pose proof (match_placeholder_length _ _ _ E) as Hlen.
  destruct s as [|c s]; [discriminate|].
  unfold findall. cbn [length findall_fuel]. rewrite E. f_equal.
  simpl in Hlen. apply findall_fuel_enough; lia.
Qed.

Lemma findall_skip c s :
  match_placeholder (c :: s) = None -> findall (c :: s) = findall s.
Proof.
  intros E. unfold findall. cbn [length findall_fuel]. rewrite E. reflexivity.
Qed.

Lemma findall_lbrace_free s rest : lbrace_free s -> findall (s ++ rest) = findall rest.
Proof.
  induction 1 as [|c s Hc Hs IH]; [reflexivity|]. simpl.
  rewrite findall_skip; [exact IH|]. simpl. rewrite Hc. reflexivity.
Qed.

Lemma findall_braced n rest :
  n <> [] -> brace_free n -> findall (braced n ++ rest) = n :: findall rest.
Proof.
  intros Hne Hn. apply findall_match. rewrite braced_cons. simpl.
  rewrite <- app_assoc. simpl.
  rewrite span_not_brace_name; [|exact Hn|reflexivity].
  destruct n; [contradiction | reflexivity].
Qed.

(* ================================================================= *)
(** ** Templates as tokens *)

Lemma replace_template p v ts :
  brace_free p -> Forall token_ok ts ->
  replace (braced p) v (template_text ts) = template_text (map (subst_token p v) ts).
Proof.
  intros Hp. induction 1 as [|t ts Ht Hts IH].
  - apply replace_nil, braced_nonempty.
  - unfold template_text in *. cbn [flat_map map].
    destruct t as [s|n]; cbn [token_text subst_token].
    + rewrite replace_lbrace_free by exact Ht. rewrite IH. reflexivity.
    + destruct Ht as [_ Hn]. case_bool_decide as E.
      * subst n. rewrite replace_braced_same, IH. reflexivity.
      * rewrite replace_braced_other by (assumption || congruence).
        rewrite IH. reflexivity.
Qed.

Lemma findall_template ts : Forall token_ok ts -> findall (template_text ts) = names ts.
Proof.
  induction 1 as [|t ts Ht Hts IH]; [reflexivity|].
  unfold template_text, names in *. cbn [flat_map].
  destruct t as [s|n]; cbn [token_text].
  - rewrite findall_lbrace_free by exact Ht. exact IH.
  - destruct Ht as [Hne Hn]. rewrite findall_braced by assumption.
    rewrite IH. reflexivity.
Qed.

Lemma subst_token_ok p v t : lbrace_free v -> token_ok t -> token_ok (subst_token p v t).
Proof.
  intros Hv Ht. destruct t as [s|n]; [exact Ht|]. simpl.
  case_bool_decide; [exact Hv | exact Ht].
Qed.

Lemma subst_tokens_cons val p ps t :
  subst_tokens val ps (subst_token p (val p) t) = subst_tokens val (p :: ps) t.
Proof.
  destruct t as [s|n]; [reflexivity|]. simpl.
  destruct (decide (n = p)) as [->|Hne].
  - rewrite !bool_decide_eq_true_2 by (reflexivity || apply list_elem_of_here).
    reflexivity.
  - rewrite (bool_decide_eq_false_2 (n = p)) by exact Hne. simpl.
    destruct (decide (n ∈ ps)) as [Hin|Hin].
    + rewrite !bool_decide_eq_true_2; [reflexivity | | exact Hin].
      apply list_elem_of_further. exact Hin.
    + rewrite !bool_decide_eq_false_2; [reflexivity | | exact Hin].
      intros Hin'. apply elem_of_cons in Hin' as [?|?]; contradiction.
Qed.

(** Successive replacements act on the tokens one placeholder at a
    time, as long as the names have no brace and the substituted values
    no opening brace. *)
Lemma replace_each_template val ps ts :
  Forall brace_free ps -> Forall (fun p => lbrace_free (val p)) ps ->
  Forall token_ok ts ->
  replace_each val ps (template_text ts) =
  template_text (map (subst_tokens val ps) ts).
Proof.
  intros Hps Hval. revert ts.
  induction ps as [|p ps IH]; intros ts Hts.
  - unfold replace_each. simpl. f_equal.
    induction ts as [|[s|n] ts IHts]; simpl; [reflexivity | |];
      (apply Forall_cons in Hts as [_ Hts]; rewrite <- IHts by exact Hts; reflexivity).
  - apply Forall_cons in Hps as [Hp Hps]. apply Forall_cons in Hval as [Hv Hval].
    unfold replace_each in *. cbn [fold_left].
    rewrite replace_template by assumption.
    rewrite IH; [| assumption | assumption |].
    + rewrite map_map. f_equal. apply map_ext. intros t. apply subst_tokens_cons.
    + clear -Hts Hv. induction Hts; constructor; [|assumption].
      apply subst_token_ok; assumption.
Qed.

Lemma names_brace_free ts : Forall token_ok ts -> Forall brace_free (names ts).
Proof.
  induction 1 as [|[s|n] ts Ht Hts IH]; [constructor | exact IH |].
  unfold names. simpl. constructor; [apply Ht | exact IH].
Qed.

Lemma subst_tokens_all val ps ts :
  (forall n, n ∈ names ts -> n ∈ ps) ->
  template_text (map (subst_tokens val ps) ts) = render val ts.
Proof.
  induction ts as [|[s|n] ts IH]; intros Hin; [reflexivity | |].
  - unfold template_text, render in *. simpl. rewrite IH; [reflexivity|].
    intros n Hn. apply Hin. exact Hn.
  - unfold template_text, render in *. simpl.
    rewrite bool_decide_eq_true_2 by (apply Hin; unfold names; simpl; apply list_elem_of_here).
    simpl. rewrite IH; [reflexivity|].
    intros n' Hn'. apply Hin. unfold names. simpl. apply list_elem_of_further. exact Hn'.
Qed.

(** Replacing every placeholder of a template in turn is the
    single-pass rendering, when no substituted value has an opening
    brace. *)
Lemma replace_each_render val ts :
  Forall token_ok ts ->
  Forall (fun p => lbrace_free (val p)) (names ts) ->
  replace_each val (findall (template_text ts)) (template_text ts) = render val ts.
Proof.
  intros Hts Hval. rewrite findall_template by exact Hts.
  rewrite replace_each_template; [| apply names_brace_free | |]; try assumption.
  apply subst_tokens_all. auto.
Qed.

(* ================================================================= *)
(** ** Values that have braces *)

Lemma apart_strip_prefix old s rest :
  apart old s = true -> strip_prefix old (s ++ rest) = None.
Proof.
  revert s. induction old as [|a old IH]; intros [|b s] Hap; simpl in *;
    try discriminate.
  destruct (Ascii.eqb a b); [apply IH; exact Hap | reflexivity].
Qed.

(** Two texts do not part ways exactly when one is the beginning of the
    other. *)
Lemma apart_false_iff a b :
  apart a b = false <-> (exists c, b = a ++ c) \/ (exists c, a = b ++ c).
Proof.
  revert b. induction a as [|x a IH]; intros [|y b]; simpl.
  - split; [intros _; left; exists []; reflexivity | reflexivity].
  - split; [intros _; left; eexists; reflexivity | reflexivity].
  - split; [intros _; right; eexists; reflexivity | reflexivity].
  - destruct (Ascii.eqb x y) eqn:E.
    + apply Ascii.eqb_eq in E. subst y. rewrite IH. split.
      * intros [[c ->]|[c ->]]; [left | right]; exists c; reflexivity.
      * intros [[c Hc]|[c Hc]]; injection Hc as ->; [left | right]; exists c; reflexivity.
    + apply Ascii.eqb_neq in E. split; [discriminate|].
      intros [[c Hc]|[c Hc]]; injection Hc as Hxy _; congruence.
Qed.

(** What [inert] says: no end of [v] that is not empty starts with
    [old], and none is a beginning of [old]. *)
Lemma inert_iff old v :
  inert old v = true <->
  forall a b, v = a ++ b -> b <> [] ->
    (forall c, b <> old ++ c) /\ (forall c, old <> b ++ c).
Proof.
  induction v as [|x v IH]; cbn [inert].
  - split; [|reflexivity]. intros _ a b Hab Hb.
    destruct a; destruct b; try discriminate. contradiction.
  - rewrite andb_true_iff, IH. split.
    + intros [Hap Hv] a b Hab Hb. destruct a as [|y a].
      * simpl in Hab. subst b.
        split; intros c Hc;
          (assert (Hf : apart old (x :: v) = false);
           [apply apart_false_iff; eauto | congruence]).
      * injection Hab as _ Hab. apply (Hv a b Hab Hb).
    + intros Hall. split.
      * destruct (apart old (x :: v)) eqn:E; [reflexivity|].
        apply apart_false_iff in E.
        destruct (Hall [] (x :: v) eq_refl) as [H1 H2]; [discriminate|].
        destruct E as [[c Hc]|[c Hc]]; [exfalso; exact (H1 c Hc) | exfalso; exact (H2 c Hc)].
      * intros a b Hab Hb. apply (Hall (x :: a) b); [rewrite Hab; reflexivity | exact Hb].
Qed.

(** A replacement passes over inert text. *)
Lemma replace_inert old new v rest :
  old <> [] -> inert old v = true ->
  replace old new (v ++ rest) = v ++ replace old new rest.
Proof.
  intros Hold. induction v as [|c v IH]; intros Hv; [reflexivity|].
  cbn [inert] in Hv. apply andb_true_iff in Hv as [Hc Hv]. cbn [app].
  rewrite replace_other; [rewrite IH by exact Hv; reflexivity | exact Hold |].
  apply (apart_strip_prefix old (c :: v) rest). exact Hc.
Qed.

Lemma lbrace_free_inert q s : lbrace_free s -> inert (braced q) s = true.
Proof.
  induction 1 as [|c s Hc _ IH]; [reflexivity|]. cbn [inert].
  rewrite IH, andb_true_r, braced_cons. cbn [apart].
  unfold is_lbrace in Hc. rewrite Ascii.eqb_sym, Hc. reflexivity.
Qed.

Lemma replace_template_inert p v ts :
  brace_free p -> Forall (token_inert p) ts ->
  replace (braced p) v (template_text ts) = template_text (map (subst_token p v) ts).
Proof.
  intros Hp. induction 1 as [|t ts Ht Hts IH].
  - apply replace_nil, braced_nonempty.
  - unfold template_text in *. cbn [flat_map map].
    destruct t as [s|n]; cbn [token_text subst_token].
    + cbn [token_inert] in Ht.
      rewrite replace_inert; [rewrite IH; reflexivity | apply braced_nonempty | exact Ht].
    + destruct Ht as [_ Hn]. case_bool_decide as E.
      * subst n. rewrite replace_braced_same, IH. reflexivity.
      * rewrite replace_braced_other by (assumption || congruence).
        rewrite IH. reflexivity.
Qed.

(** Successive replacements act on the tokens one placeholder at a
    time, as long as every text between the placeholders, literal or
    inserted, is inert for the placeholders still to be replaced. *)
Lemma replace_each_safe val ps ts :
  Forall brace_free ps -> single_pass_safe val ps = true ->
  Forall (fun t => forall q, q ∈ ps -> token_inert q t) ts ->
  replace_each val ps (template_text ts) =
  template_text (map (subst_tokens val ps) ts).
Proof.
  intros Hps. revert ts. induction Hps as [|p ps Hp Hps IH]; intros ts Hsafe Hts.
  - unfold replace_each. simpl. f_equal. clear.
    induction ts as [|[s|n] ts IHts]; simpl; [reflexivity | |];
      rewrite <- IHts; reflexivity.
  - cbn [single_pass_safe] in Hsafe. apply andb_true_iff in Hsafe as [Hlater Hsafe].
    unfold replace_each in *. cbn [fold_left].
    rewrite replace_template_inert.
    + rewrite IH.
      * rewrite map_map. f_equal. apply map_ext. intros t. apply subst_tokens_cons.
      * exact Hsafe.
      * apply Forall_map. eapply Forall_impl; [exact Hts|].
        intros t Ht q Hq. destruct t as [s|n]; cbn [subst_token].
        -- apply Ht. apply list_elem_of_further. exact Hq.
        -- case_bool_decide as E.
           ++ cbn [token_inert]. rewrite forallb_forall in Hlater.
              apply Hlater. apply list_elem_of_In. exact Hq.
           ++ apply (Ht q). apply list_elem_of_further. exact Hq.
    + exact Hp.
    + eapply Forall_impl; [exact Hts|]. intros t Ht. apply Ht. apply list_elem_of_here.
Qed.

(** Replacing every placeholder of a template in turn is the
    single-pass rendering, when the value of each placeholder is inert
    for the placeholders listed after it. *)
Lemma replace_each_render_safe val ts :
  Forall token_ok ts -> single_pass_safe val (names ts) = true ->
  replace_each val (findall (template_text ts)) (template_text ts) = render val ts.
Proof.
  intros Hts Hsafe. rewrite findall_template by exact Hts.
  rewrite replace_each_safe; [| apply names_brace_free; exact Hts | exact Hsafe |].
  - apply subst_tokens_all. auto.
  - eapply Forall_impl; [exact Hts|]. intros [s|n] Ht q _; cbn [token_inert].
    + apply lbrace_free_inert. exact Ht.
    + exact Ht.
Qed.

(** Values without an opening brace are inert for every placeholder. *)
Lemma lbrace_free_single_pass_safe val ns :
  Forall (fun p => lbrace_free (val p)) ns -> single_pass_safe val ns = true.
Proof.
  induction 1 as [|p ns Hp _ IH]; [reflexivity|]. cbn [single_pass_safe].
  rewrite IH, andb_true_r. apply forallb_forall. intros q _.
  apply lbrace_free_inert. exact Hp.
Qed.

Lemma replace_each_ext val val' ps s :
  (forall p, val p = val' p) -> replace_each val ps s = replace_each val' ps s.
Proof.
  intros Hval. unfold replace_each. revert s.
  induction ps as [|p ps IH]; intros s; [reflexivity|].
  cbn [fold_left]. rewrite Hval. apply IH.
Qed.

(* ================================================================= *)
(** ** The naming engine *)

Lemma lfor_run {A B} (f : B -> A -> B) (lg : A -> list log_record)
    (body : B -> A -> Logged B) xs acc :
  (forall acc x, body acc x = (Ok (f acc x), lg x)) ->
  lfor xs acc body = (Ok (fold_left f xs acc), flat_map lg xs).
Proof.
  intros Hbody. revert acc. induction xs as [|x xs IH]; intros acc; [reflexivity|].
  cbn [lfor fold_left flat_map]. unfold mbind, logged_bind.
  rewrite Hbody, IH. reflexivity.
Qed.

Lemma contains_lookup (d : metadata) k :
  contains d k = match d !! k with Some _ => true | None => false end.
Proof.
  unfold contains. destruct (d !! k) eqn:E.
  - apply bool_decide_eq_true_2. eauto.
  - apply bool_decide_eq_false_2. intros [v Hv]. discriminate.
Qed.

Lemma naming_substitute_run metadata s p :
  NamingEngine.substitute metadata s p =
  (Ok (replace (braced p) (value_or [] metadata p) s),
   if missing metadata p then [placeholder_warning p] else []).
Proof.
  unfold NamingEngine.substitute, value_or, missing, getitem.
  rewrite contains_lookup.
  destruct (metadata !! p) as [v|] eqn:E; [|reflexivity]. simpl.
  destruct (truthy v) eqn:Ev; simpl; [reflexivity|].
  unfold truthy in Ev. apply negb_false_iff, bool_decide_eq_true in Ev. subst v.
  reflexivity.
Qed.

Lemma organization_substitute_run metadata s p :
  OrganizationEngine.substitute metadata s p =
  (Ok (replace (braced p) (value_or (str "unknown") metadata p) s), []).
Proof.
  unfold OrganizationEngine.substitute, value_or, getitem.
  rewrite contains_lookup.
  destruct (metadata !! p) as [v|] eqn:E; [|reflexivity]. simpl.
  destruct (truthy v) eqn:Ev; reflexivity.
Qed.

(** [generate_filename] in closed form: it always returns. *)
Lemma generate_filename_run self metadata :
  NamingEngine.generate_filename self metadata =
  (Ok (_clean_filename
         (replace_each (value_or [] metadata)
            (findall (NamingEngine.pattern self)) (NamingEngine.pattern self))
       ++ extension_suffix metadata),
   flat_map (fun p => if missing metadata p then [placeholder_warning p] else [])
     (findall (NamingEngine.pattern self))).
Proof.
  unfold NamingEngine.generate_filename, extension_suffix, getitem.
  unfold mbind at 1. unfold logged_bind.
  rewrite (lfor_run (fun s p => replace (braced p) (value_or [] metadata p) s)
             (fun p => if missing metadata p then [placeholder_warning p] else []))
    by apply naming_substitute_run.
  rewrite contains_lookup. fold (replace_each (value_or [] metadata)).
  destruct (metadata !! str "extension") as [ext|] eqn:E; simpl.
  - destruct (truthy ext); simpl; rewrite ?app_nil_r; reflexivity.
  - rewrite !app_nil_r. reflexivity.
Qed.

Lemma reserved_free_app s1 s2 :
  reserved_free (s1 ++ s2) <-> reserved_free s1 /\ reserved_free s2.
Proof. apply Forall_app. Qed.

Lemma extension_suffix_reserved_free metadata :
  reserved_free (extension_suffix metadata) <->
  (forall ext, metadata !! str "extension" = Some ext -> reserved_free ext).
Proof.
  unfold extension_suffix.
  destruct (metadata !! str "extension") as [ext|] eqn:E.
  - destruct (truthy ext) eqn:Et.
    + rewrite reserved_free_app. split.
      * intros [_ Hext] ext' [= <-]. exact Hext.
      * intros Hext. split; [repeat constructor | apply Hext; reflexivity].
    + unfold truthy in Et. apply negb_false_iff, bool_decide_eq_true in Et. subst ext.
      split; [intros _ ext' [= <-]; constructor | intros _; constructor].
  - split; [intros _ ext' [=] | intros _; constructor].
Qed.

(** C1, as the code has it.  For every template and attribute map,
    [generate_filename] returns the sanitized name followed by the
    extension suffix (a dot and the extension, verbatim, when the map
    has a non-empty extension).  The sanitized part has none of the
    reserved characters; the whole result has none exactly when the
    extension value has none. *)
Theorem generate_filename_reserved_free (self : NamingEngine.t) (metadata : metadata) :
  exists stem,
    fst (NamingEngine.generate_filename self metadata)
      = Ok (stem ++ extension_suffix metadata) /\
    reserved_free stem /\
    (reserved_free (stem ++ extension_suffix metadata) <->
     (forall ext, metadata !! str "extension" = Some ext -> reserved_free ext)).
Proof.
  rewrite generate_filename_run. eexists. split; [reflexivity|].
  split; [apply clean_filename_reserved_free|].
  rewrite reserved_free_app, extension_suffix_reserved_free.
  pose proof (clean_filename_reserved_free
    (replace_each (value_or [] metadata) (findall (NamingEngine.pattern self))
       (NamingEngine.pattern self))).
  tauto.
Qed.

(** C1, counterexample to the claim as stated: the template [{a}] is
    valid, and with the extension [j/pg] the result [x.j/pg] has a
    slash. *)
Lemma generate_filename_extension_verbatim :
  fst (NamingEngine.__init__ (Some (str "{a}"))) = Ok (NamingEngine.Build (str "{a}")) /\
  fst (NamingEngine.generate_filename (NamingEngine.Build (str "{a}"))
         (md [("a", "x"); ("extension", "j/pg")])) = Ok (str "x.j/pg") /\
  ~ reserved_free (str "x.j/pg").
Proof.
  split; [vm_compute; reflexivity|]. split; [vm_compute; reflexivity|].
  intros Hfree. unfold reserved_free in Hfree.
  do 3 (apply Forall_cons in Hfree as [_ Hfree]).
  apply Forall_cons in Hfree as [Hslash _]. vm_compute in Hslash. discriminate.
Qed.




(* ================================================================= *)
(** ** Regular expressions: the matcher decides the language *)

Lemma lang_never_inv s : ~ lang Never s.
Proof. intros Hl. inversion Hl. Qed.

Lemma lang_eps_inv s : lang Eps s -> s = [].
Proof. intros Hl. inversion Hl. reflexivity. Qed.

Lemma lang_class_inv p s : lang (Class p) s -> exists c, s = [c] /\ p c = true.
Proof. intros Hl. inversion Hl; subst. eauto. Qed.

Lemma lang_cat_inv r1 r2 s :
  lang (Cat r1 r2) s -> exists s1 s2, s = s1 ++ s2 /\ lang r1 s1 /\ lang r2 s2.
Proof. intros Hl. inversion Hl; subst. eauto. Qed.

Lemma lang_alt_inv r1 r2 s : lang (Alt r1 r2) s -> lang r1 s \/ lang r2 s.
Proof. intros Hl. inversion Hl; subst; auto. Qed.

(** A non-empty word of a starred expression starts with a non-empty
    word of the expression. *)
Lemma lang_star_cons_inv r c s :
  lang (Star r) (c :: s) ->
  exists s1 s2, s = s1 ++ s2 /\ lang r (c :: s1) /\ lang (Star r) s2.
Proof.
  intros Hl. remember (Star r) as r' eqn:Er. remember (c :: s) as w eqn:Ew.
  induction Hl as [| | | | | |r0 s1 s2 H1 _ H2 IH2]; try discriminate.
  injection Er as ->. destruct s1 as [|c1 s1].
  - apply IH2; [reflexivity | exact Ew].
  - simpl in Ew. injection Ew as -> <-. eauto.
Qed.

Lemma nullable_lang r : nullable r = true <-> lang r [].
Proof.
  induction r as [| |p|r1 IH1 r2 IH2|r1 IH1 r2 IH2|r IH]; simpl.
  - split; [discriminate | intros Hl; inversion Hl].
  - split; [constructor | reflexivity].
  - split; [discriminate | intros Hl; inversion Hl].
  - rewrite andb_true_iff, IH1, IH2. split.
    + intros [H1 H2]. apply (lang_cat r1 r2 [] []); assumption.
    + intros Hl. apply lang_cat_inv in Hl as (s1 & s2 & E & H1 & H2).
      symmetry in E. apply app_eq_nil in E as [-> ->]. auto.
  - rewrite orb_true_iff, IH1, IH2. split.
    + intros [Hl|Hl]; [apply lang_alt_l | apply lang_alt_r]; exact Hl.
    + apply lang_alt_inv.
  - split; [constructor | reflexivity].
Qed.

Lemma deriv_lang c r s : lang (deriv c r) s <-> lang r (c :: s).
Proof.
  revert s. induction r as [| |p|r1 IH1 r2 IH2|r1 IH1 r2 IH2|r IH]; intros s; simpl.
  - split; intros Hl; inversion Hl.
  - split; intros Hl; inversion Hl.
  - destruct (p c) eqn:Ep; split; intros Hl.
    + apply lang_eps_inv in Hl. subst s. constructor. exact Ep.
    + apply lang_class_inv in Hl as (c' & [= <- ->] & _). constructor.
    + inversion Hl.
    + apply lang_class_inv in Hl as (c' & [= <- ->] & Hp). congruence.
  - assert (Hleft : lang (Cat (deriv c r1) r2) s ->  lang (Cat r1 r2) (c :: s)).
    { intros Hl. apply lang_cat_inv in Hl as (s1 & s2 & -> & H1 & H2).
      apply IH1 in H1. apply (lang_cat r1 r2 (c :: s1) s2); assumption. }
    assert (Hright : lang (Cat r1 r2) (c :: s) ->
                     lang (Cat (deriv c r1) r2) s \/ (lang r1 [] /\ lang (deriv c r2) s)).
    { intros Hl. apply lang_cat_inv in Hl as (s1 & s2 & E & H1 & H2).
      destruct s1 as [|c1 s1]; simpl in E.
      - subst s2. right. split; [exact H1 | apply IH2; exact H2].
      - injection E as <- ->. left. constructor; [apply IH1; exact H1 | exact H2]. }
    destruct (nullable r1) eqn:En.
    + split.
      * intros Hl. apply lang_alt_inv in Hl as [Hl|Hl]; [auto|].
        apply IH2 in Hl. apply nullable_lang in En.
        apply (lang_cat r1 r2 [] (c :: s)); assumption.
      * intros Hl. apply Hright in Hl as [Hl|[_ Hl]];
          [apply lang_alt_l | apply lang_alt_r]; exact Hl.
    + split; [exact Hleft|].
      intros Hl. apply Hright in Hl as [Hl|[Hn _]]; [exact Hl|].
      apply nullable_lang in Hn. congruence.
  - split.
    + intros Hl. apply lang_alt_inv in Hl as [Hl|Hl];
        [apply lang_alt_l, IH1 | apply lang_alt_r, IH2]; exact Hl.
    + intros Hl. apply lang_alt_inv in Hl as [Hl|Hl];
        [apply lang_alt_l, IH1 | apply lang_alt_r, IH2]; exact Hl.
  - split.
    + intros Hl. apply lang_cat_inv in Hl as (s1 & s2 & -> & H1 & H2).
      apply IH in H1. apply (lang_star_cons r (c :: s1) s2); assumption.
    + intros Hl. apply lang_star_cons_inv in Hl as (s1 & s2 & -> & H1 & H2).
      constructor; [apply IH; exact H1 | exact H2].
Qed.

Lemma fullmatch_lang r s : fullmatch r s = true <-> lang r s.
Proof.
  revert r. induction s as [|c s IH]; intros r; simpl.
  - apply nullable_lang.
  - rewrite IH. apply deriv_lang.
Qed.

Lemma lang_star_class p s :
  lang (Star (Class p)) s <-> Forall (fun c => p c = true) s.
Proof.
  split.
  - induction s as [|c s IH]; intros Hl; [constructor|].
    apply lang_star_cons_inv in Hl as (s1 & s2 & -> & H1 & H2).
    apply lang_class_inv in H1 as (c' & [= <- ->] & Hp).
    constructor; [exact Hp | apply IH; exact H2].
  - induction 1 as [|c s Hc _ IH]; [constructor|].
    apply (lang_star_cons (Class p) [c] s); [constructor; exact Hc | exact IH].
Qed.

(* ================================================================= *)
(** ** Template validation *)

Lemma is_word_not_brace c : is_word c = true -> is_brace c = false.
Proof.
  destruct c as [[] [] [] [] [] [] [] []]; vm_compute; congruence.
Qed.

Lemma word_name_brace_free n : Forall (fun c => is_word c = true) n -> brace_free n.
Proof.
  induction 1 as [|c n Hc _ IH]; constructor; [apply is_word_not_brace; exact Hc | exact IH].
Qed.

Lemma word_token_token_ok t : word_token_ok t -> token_ok t.
Proof.
  destruct t as [s|n]; simpl.
  - apply brace_free_lbrace_free.
  - intros [Hne Hn]. split; [exact Hne | apply word_name_brace_free; exact Hn].
Qed.

Lemma is_lbrace_eq c : is_lbrace c = true -> c = "{"%char.
Proof. apply Ascii.eqb_eq. Qed.

Lemma is_rbrace_eq c : is_rbrace c = true -> c = "}"%char.
Proof. apply Ascii.eqb_eq. Qed.

Lemma not_brace_star s : lang (Star NamingEngine.not_brace) s <-> brace_free s.
Proof.
  unfold NamingEngine.not_brace. rewrite lang_star_class. unfold brace_free.
  split; intros Hs; (eapply Forall_impl; [exact Hs|]); intros c Hc; simpl in *.
  - apply negb_true_iff. exact Hc.
  - apply negb_true_iff. exact Hc.
Qed.

Lemma word_plus n :
  lang (Plus (Class is_word)) n <-> n <> [] /\ Forall (fun c => is_word c = true) n.
Proof.
  unfold Plus. split.
  - intros Hl. apply lang_cat_inv in Hl as (s1 & s2 & -> & H1 & H2).
    apply lang_class_inv in H1 as (c & -> & Hc). apply lang_star_class in H2.
    split; [discriminate | constructor; assumption].
  - intros [Hne Hn]. destruct Hn as [|c n Hc Hn]; [contradiction|].
    apply (lang_cat (Class is_word) (Star (Class is_word)) [c] n).
    + constructor. exact Hc.
    + apply lang_star_class. exact Hn.
Qed.

Lemma group_lang s :
  lang group s <->
  exists n l, s = braced n ++ l /\ word_token_ok (Ph n) /\ word_token_ok (Lit l).
Proof.
  unfold group. split.
  - intros Hl. apply lang_cat_inv in Hl as (s1 & s2 & -> & H1 & Hl).
    apply lang_cat_inv in Hl as (n & s3 & -> & Hn & Hl).
    apply lang_cat_inv in Hl as (s4 & l & -> & H4 & Hl).
    apply lang_class_inv in H1 as (c1 & -> & Hc1). apply is_lbrace_eq in Hc1. subst c1.
    apply lang_class_inv in H4 as (c4 & -> & Hc4). apply is_rbrace_eq in Hc4. subst c4.
    exists n, l. split; [|split].
    + rewrite braced_cons. simpl. rewrite <- app_assoc. reflexivity.
    + apply word_plus. exact Hn.
    + apply not_brace_star. exact Hl.
  - intros (n & l & -> & Hn & Hl). rewrite braced_cons.
    change (("{"%char :: n ++ ["}"%char]) ++ l) with (["{"%char] ++ ((n ++ ["}"%char]) ++ l)).
    constructor; [constructor; reflexivity|].
    rewrite <- app_assoc. constructor; [apply word_plus; exact Hn|].
    constructor; [constructor; reflexivity | apply not_brace_star; exact Hl].
Qed.

Lemma group_star_tokens s :
  lang (Star group) s -> exists ts, Forall word_token_ok ts /\ template_text ts = s.
Proof.
  intros Hl. remember (Star group) as r eqn:Er.
  induction Hl as [| | | | | |r0 s1 s2 H1 _ H2 IH2]; try discriminate.
  - exists []. split; [constructor | reflexivity].
  - injection Er as ->. destruct (IH2 eq_refl) as (ts & Hts & <-).
    apply group_lang in H1 as (n & l & -> & Hn & Hl).
    exists (Ph n :: Lit l :: ts).
    split; [constructor; [exact Hn | constructor; [exact Hl | exact Hts]]|].
    unfold template_text. cbn [flat_map token_text]. rewrite <- app_assoc. reflexivity.
Qed.

Lemma placeholder_format_lang s :
  lang NamingEngine.placeholder_format s <-> word_template s.
Proof.
  unfold NamingEngine.placeholder_format. fold group. split.
  - intros Hl. apply lang_cat_inv in Hl as (l & s2 & -> & Hlit & Hgroups).
    apply not_brace_star in Hlit.
    apply group_star_tokens in Hgroups as (ts & Hts & <-).
    exists (Lit l :: ts). split; [constructor; assumption | reflexivity].
  - intros (ts & Hts & <-). induction Hts as [|t ts Ht _ IH].
    + apply (lang_cat _ _ [] []); constructor.
    + apply lang_cat_inv in IH as (l & s2 & E & Hlit & Hgroups).
      unfold template_text in *. cbn [flat_map]. rewrite E.
      destruct t as [s|n]; cbn [token_text].
      * rewrite app_assoc. constructor; [|exact Hgroups].
        apply not_brace_star. apply Forall_app. split; [exact Ht|].
        apply not_brace_star. exact Hlit.
      * apply (lang_cat _ _ [] (braced n ++ l ++ s2)); [constructor|].
        rewrite app_assoc. constructor; [|exact Hgroups].
        apply group_lang. exists n, l. split; [reflexivity|]. split; [exact Ht|].
        apply not_brace_star. exact Hlit.
Qed.

Lemma word_template_app_literal s l :
  word_template s -> brace_free l -> word_template (s ++ l).
Proof.
  intros (ts & Hts & <-) Hl. exists (ts ++ [Lit l]). split.
  - apply Forall_app. split; [exact Hts | repeat constructor; exact Hl].
  - unfold template_text. rewrite flat_map_app. simpl. rewrite app_nil_r. reflexivity.
Qed.

(** The anchored match is membership in the language: the text before a
    final newline matches only if the whole text does. *)
Lemma re_match_placeholder_format s :
  re_match_anchored NamingEngine.placeholder_format s = true <-> word_template s.
Proof.
  unfold re_match_anchored. rewrite orb_true_iff, fullmatch_lang, placeholder_format_lang.
  split; [|auto]. intros [Hs|Hs]; [exact Hs|].
  destruct (rev s) as [|c before] eqn:E; [discriminate|].
  apply andb_true_iff in Hs as [Hc Hs]. apply Ascii.eqb_eq in Hc. subst c.
  apply fullmatch_lang, placeholder_format_lang in Hs.
  apply (f_equal (@rev ascii)) in E. rewrite rev_involutive in E. simpl in E. subst s.
  apply word_template_app_literal; [exact Hs | repeat constructor].
Qed.

Lemma count_app c s1 s2 : count c (s1 ++ s2) = count c s1 + count c s2.
Proof. unfold count. rewrite filter_app, length_app. reflexivity. Qed.

Lemma count_brace_free s :
  brace_free s -> count "{" s = 0 /\ count "}" s = 0.
Proof.
  induction 1 as [|c s Hc _ [IH1 IH2]]; [split; reflexivity|].
  unfold is_brace, is_lbrace, is_rbrace in Hc. apply orb_false_iff in Hc as [H1 H2].
  unfold count in *. rewrite !filter_cons.
  destruct (decide ((c =? "{")%char = true)); [congruence|].
  destruct (decide ((c =? "}")%char = true)); [congruence|]. auto.
Qed.

Lemma word_template_balanced s : word_template s -> count "{" s = count "}" s.
Proof.
  intros (ts & Hts & <-). induction Hts as [|t ts Ht _ IH]; [reflexivity|].
  unfold template_text in *. cbn [flat_map]. rewrite !count_app, IH. f_equal.
  destruct t as [l|n]; cbn [token_text].
  - destruct (count_brace_free l Ht) as [-> ->]. reflexivity.
  - destruct Ht as [_ Hn]. apply word_name_brace_free, count_brace_free in Hn as [H1 H2].
    rewrite braced_cons.
    change ("{"%char :: n ++ ["}"%char]) with (["{"%char] ++ n ++ ["}"%char]).
    rewrite !count_app, H1, H2. reflexivity.
Qed.

Lemma truthy_nonempty (s : pystr) : truthy s = true <-> s <> [].
Proof.
  unfold truthy. rewrite negb_true_iff. split.
  - intros Hs. apply bool_decide_eq_false in Hs. exact Hs.
  - intros Hs. apply bool_decide_eq_false. exact Hs.
Qed.

Lemma validate_pattern_cases pattern :
  fst (NamingEngine._validate_pattern pattern) = Ok tt \/
  exists msg, fst (NamingEngine._validate_pattern pattern) = Raise (ValueError msg).
Proof.
  unfold NamingEngine._validate_pattern.
  repeat match goal with |- context [if ?b then _ else _] => destruct b end;
    simpl; eauto.
Qed.

Lemma validate_pattern_ok pattern :
  fst (NamingEngine._validate_pattern pattern) = Ok tt <->
  pattern <> [] /\ word_template pattern.
Proof.
  unfold NamingEngine._validate_pattern.
  destruct (truthy pattern) eqn:Et; simpl.
  - apply truthy_nonempty in Et.
    destruct (re_match_anchored NamingEngine.placeholder_format pattern) eqn:Em.
    + apply re_match_placeholder_format in Em.
      rewrite (word_template_balanced _ Em), Nat.eqb_refl. simpl. tauto.
    + assert (~ word_template pattern).
      { intros Hw. apply re_match_placeholder_format in Hw. congruence. }
      destruct (count "{" pattern =? count "}" pattern); simpl;
        (split; [discriminate | tauto]).
  - split; [discriminate|]. intros [Hne _]. apply truthy_nonempty in Hne. congruence.
Qed.

Lemma spec_scan_literal l rest :
  brace_free l -> spec_scan None (l ++ rest) = spec_scan None rest.
Proof.
  induction 1 as [|c l Hc _ IH]; [reflexivity|]. simpl.
  unfold is_brace in Hc. apply orb_false_iff in Hc as [-> ->]. exact IH.
Qed.

Lemma spec_scan_name k n rest :
  brace_free n -> 0 < k + length n ->
  spec_scan (Some k) (n ++ "}"%char :: rest) = spec_scan None rest.
Proof.
  intros Hn. revert k. induction Hn as [|c n Hc _ IH]; intros k Hk; simpl.
  - destruct k; [simpl in Hk; lia | reflexivity].
  - unfold is_brace in Hc. apply orb_false_iff in Hc as [-> ->].
    apply IH. simpl in Hk. lia.
Qed.

(** A pattern the code accepts passes the check of the specification. *)
Lemma word_template_spec_valid pattern :
  pattern <> [] -> word_template pattern -> spec_valid_template pattern = true.
Proof.
  intros Hne (ts & Hts & <-). unfold spec_valid_template.
  apply andb_true_iff. split; [apply truthy_nonempty; exact Hne|]. clear Hne.
  induction Hts as [|t ts Ht _ IH]; [reflexivity|].
  unfold template_text in *. cbn [flat_map].
  destruct t as [l|n]; cbn [token_text].
  - rewrite spec_scan_literal by exact Ht. exact IH.
  - destruct Ht as [Hne Hn]. rewrite braced_cons. simpl. rewrite <- app_assoc. simpl.
    rewrite spec_scan_name; [exact IH | apply word_name_brace_free; exact Hn |].
    destruct n; [contradiction | simpl; lia].
Qed.

Lemma naming_init_run pattern :
  fst (NamingEngine.__init__ (Some pattern)) =
  if truthy pattern then
    match fst (NamingEngine._validate_pattern pattern) with
    | Ok _ => Ok (NamingEngine.Build pattern)
    | Raise e => Raise e
    | Diverge => Diverge
    end
  else Ok (NamingEngine.Build NamingEngine.DEFAULT_PATTERN).
Proof.
  unfold NamingEngine.__init__. destruct (truthy pattern); [|vm_compute; reflexivity].
  unfold mbind, logged_bind.
  destruct (NamingEngine._validate_pattern pattern) as [[[]|e|] lg]; reflexivity.
Qed.

(** C4, as the code has it.  [_validate_pattern] raises [ValueError],
    and nothing else, exactly when the pattern is empty or does not read
    as literal text without braces and [{name}] placeholders whose names
    are one or more word characters, the class \w of Python on a [str]:
    letters and digits, not only the ASCII ones, and the underscore.
    Every pattern that the check of the specification refuses (empty,
    braces not in pairs, a name that is empty or has a brace) is
    refused.  The constructor takes the default pattern for an empty one
    and validates any other.  The four patterns of the specification are
    refused and accepted as it says; a name with a letter outside ASCII,
    here e with an acute accent (code 233), is accepted. *)
Theorem validate_pattern_rejects (pattern : pystr) :
  (fst (NamingEngine._validate_pattern pattern) = Ok tt \/
   exists msg, fst (NamingEngine._validate_pattern pattern) = Raise (ValueError msg)) /\
  (fst (NamingEngine._validate_pattern pattern) = Ok tt <->
   pattern <> [] /\ word_template pattern) /\
  (spec_valid_template pattern = false ->
   fst (NamingEngine._validate_pattern pattern) <> Ok tt) /\
  (forall self, fst (NamingEngine.__init__ (Some pattern)) = Ok self <->
     (pattern = [] /\ self = NamingEngine.Build NamingEngine.DEFAULT_PATTERN) \/
     (pattern <> [] /\ word_template pattern /\ self = NamingEngine.Build pattern)) /\
  fst (NamingEngine._validate_pattern (str "{a{b}}")) <> Ok tt /\
  fst (NamingEngine._validate_pattern (str "{}")) <> Ok tt /\
  fst (NamingEngine._validate_pattern (str "{a}_{b}")) = Ok tt /\
  fst (NamingEngine._validate_pattern (str "flat")) = Ok tt /\
  fst (NamingEngine._validate_pattern ["{"%char; ascii_of_nat 233; "}"%char]) = Ok tt.
Proof.
  split; [apply validate_pattern_cases|].
  split; [apply validate_pattern_ok|].
  split.
  { intros Hspec Hok. apply validate_pattern_ok in Hok as [Hne Hw].
    rewrite (word_template_spec_valid _ Hne Hw) in Hspec. discriminate. }
  split.
  { intros self. rewrite naming_init_run.
    destruct (truthy pattern) eqn:Et.
    - apply truthy_nonempty in Et.
      pose proof (validate_pattern_ok pattern) as Hok.
      destruct (fst (NamingEngine._validate_pattern pattern)) as [[]|e|].
      + split.
        * intros [= <-]. right. split; [exact Et|]. split; [apply Hok|]; reflexivity.
        * intros [[Hnil _]|(_ & _ & ->)]; [contradiction | reflexivity].
      + split; [discriminate|].
        intros [[Hnil _]|(_ & Hw & _)]; [contradiction|].
        assert (Raise e = Ok tt) by (apply Hok; split; assumption). discriminate.
      + split; [discriminate|].
        intros [[Hnil _]|(_ & Hw & _)]; [contradiction|].
        assert (@Diverge unit = Ok tt) by (apply Hok; split; assumption). discriminate.
    - assert (pattern = []) as ->.
      { destruct pattern; [reflexivity | discriminate]. }
      split.
      + intros [= <-]. left. split; reflexivity.
      + intros [[_ ->]|(Hne & _)]; [reflexivity | contradiction]. }
  repeat split; vm_compute; congruence.
Qed.

(** C4, counterexample to the claim as stated: the pattern [{a b}] is not
    empty, its braces are in pairs and its one name is neither empty nor
    has a brace, yet it is refused; and the constructor accepts the
    empty pattern. *)
Lemma validate_pattern_refuses_more :
  spec_valid_template (str "{a b}") = true /\
  fst (NamingEngine._validate_pattern (str "{a b}")) =
    Raise (ValueError (str "Naming pattern has invalid placeholder format")) /\
  fst (NamingEngine.__init__ (Some [])) =
    Ok (NamingEngine.Build NamingEngine.DEFAULT_PATTERN).
Proof. repeat split; vm_compute; reflexivity. Qed.

(* ================================================================= *)
(** ** Destination directories *)

Lemma add_segment_run metadata dest_path segment :
  OrganizationEngine.add_segment metadata dest_path segment =
  (Ok (add_segment_value metadata dest_path segment), []).
Proof.
  unfold OrganizationEngine.add_segment, add_segment_value, segment_value.
  destruct (truthy segment); [|reflexivity]. simpl.
  unfold mbind, logged_bind.
  rewrite (lfor_run (fun s p => replace (braced p) (value_or (str "unknown") metadata p) s)
             (fun _ => [])) by apply organization_substitute_run.
  simpl. f_equal.
  induction (findall segment) as [|p ps IH]; [reflexivity | exact IH].
Qed.

(** [determine_destination_path] in closed form: it always returns, and
    logs nothing. *)
Lemma determine_destination_path_run self metadata :
  OrganizationEngine.determine_destination_path self metadata =
  (Ok (if truthy (OrganizationEngine.hierarchy_pattern self) then
         fold_left (add_segment_value metadata)
           (posixpath.split "/" (OrganizationEngine.hierarchy_pattern self))
           (OrganizationEngine.destination self)
       else OrganizationEngine.destination self), []).
Proof.
  unfold OrganizationEngine.determine_destination_path.
  destruct (truthy (OrganizationEngine.hierarchy_pattern self)); [|reflexivity]. simpl.
  rewrite (lfor_run (add_segment_value metadata) (fun _ => []))
    by apply add_segment_run.
  f_equal.
  induction (posixpath.split "/" (OrganizationEngine.hierarchy_pattern self))
    as [|p ps IH]; [reflexivity | exact IH].
Qed.

Lemma value_or_missing default metadata p :
  missing metadata p = true -> value_or default metadata p = default.
Proof.
  unfold missing, value_or. destruct (metadata !! p) as [v|]; [|reflexivity].
  intros Hv. apply negb_true_iff in Hv. rewrite Hv. reflexivity.
Qed.

(* ================================================================= *)
(** ** Duplicate handling *)

Lemma str_inj s1 s2 : str s1 = str s2 -> s1 = s2.
Proof.
  unfold str. intros E. apply (f_equal string_of_list_ascii) in E.
  rewrite !string_of_list_ascii_of_string in E. exact E.
Qed.

Lemma str_of_int_inj a b : str_of_int a = str_of_int b -> a = b.
Proof.
  unfold str_of_int. intros E. apply str_inj in E.
  apply (f_equal NilEmpty.int_of_string) in E. rewrite !NilEmpty.isi in E.
  injection E as E. apply DecimalZ.to_int_inj. exact E.
Qed.

Lemma startswith_cons p c s1 s2 :
  posixpath.startswith p (c :: s1) = posixpath.startswith p (c :: s2) \/ 1 < length p.
Proof.
  destruct p as [|a [|b p]]; [left; reflexivity | left | right; simpl; lia].
  unfold posixpath.startswith. simpl. destruct (Ascii.eqb a c); reflexivity.
Qed.

Lemma join_inj_tail directory pre a b :
  pre <> [] ->
  posixpath.join directory (pre ++ a) = posixpath.join directory (pre ++ b) -> a = b.
Proof.
  intros Hpre. unfold posixpath.join.
  destruct pre as [|c pre]; [contradiction|]. simpl app.
  destruct (startswith_cons (str "/") c (pre ++ a) (pre ++ b)) as [E|E];
    [|simpl in E; lia].
  rewrite E. destruct (posixpath.startswith (str "/") (c :: pre ++ b)).
  - intros [= Ht]. eapply app_inv_head. exact Ht.
  - destruct (negb (truthy directory) || posixpath.endswith (str "/") directory);
      intros Ht.
    + apply app_inv_head in Ht. injection Ht as Ht. eapply app_inv_head. exact Ht.
    + apply app_inv_head in Ht. injection Ht as Ht. eapply app_inv_head. exact Ht.
Qed.

Lemma candidate_inj directory name ext j k :
  candidate directory name ext j = candidate directory name ext k -> j = k.
Proof.
  unfold candidate. intros E.
  rewrite !(app_assoc name) in E. apply join_inj_tail in E.
  - apply app_inv_tail in E. apply str_of_int_inj. exact E.
  - destruct name; discriminate.
Qed.

Section DuplicateHandling.
Context `{FileSystem}.

Lemma checks_only_ret {A} (a : A) : checks_only (mret a).
Proof. intros w. split; [reflexivity|]. exists []. rewrite app_nil_r. split; [reflexivity | constructor]. Qed.

Lemma checks_only_raise {A} e : checks_only (@raise _ A e).
Proof. intros w. split; [reflexivity|]. exists []. rewrite app_nil_r. split; [reflexivity | constructor]. Qed.

Lemma checks_only_diverge {A} : checks_only (@diverge _ A).
Proof. intros w. split; [reflexivity|]. exists []. rewrite app_nil_r. split; [reflexivity | constructor]. Qed.

Lemma checks_only_lift {A} (c : Logged A) : checks_only (lift c).
Proof. intros w. split; [reflexivity|]. exists []. simpl. rewrite app_nil_r. split; [reflexivity | constructor]. Qed.

Lemma checks_only_exists path : checks_only (os_path_exists path).
Proof. intros w. split; [reflexivity|]. exists [OpExists path]. split; [reflexivity | repeat constructor]. Qed.

Lemma checks_only_isfile path : checks_only (os_path_isfile path).
Proof. intros w. split; [reflexivity|]. exists [OpIsfile path]. split; [reflexivity | repeat constructor]. Qed.

Lemma checks_only_bind {A B} (c : Py A) (f : A -> Py B) :
  checks_only c -> (forall a, checks_only (f a)) -> checks_only (c ≫= f).
Proof.
  intros Hc Hf w. unfold mbind, py_bind.
  destruct (Hc w) as (Hfs & ops & Hops & Hchk).
  destruct (c w) as [[a|e|] w1]; simpl in *.
  - destruct (Hf a w1) as (Hfs' & ops' & Hops' & Hchk').
    split; [congruence|]. exists (ops ++ ops'). split.
    + rewrite Hops', Hops, app_assoc. reflexivity.
    + apply Forall_app. split; assumption.
  - split; [exact Hfs|]. exists ops. split; assumption.
  - split; [exact Hfs|]. exists ops. split; assumption.
Qed.

Lemma checks_only_loop directory name ext fuel :
  forall counter new_filepath,
    checks_only (handle_duplicates_loop fuel directory name ext counter new_filepath).
Proof.
  induction fuel as [|fuel IH]; intros counter new_filepath; simpl.
  - apply checks_only_diverge.
  - apply checks_only_bind; [apply checks_only_exists|].
    intros []; [apply IH | apply checks_only_ret].
Qed.

Lemma checks_only_handle_duplicates self filepath :
  checks_only (handle_duplicates self filepath).
Proof.
  unfold handle_duplicates.
  apply checks_only_bind; [apply checks_only_exists|].
  intros []; cbn [negb]; [|apply checks_only_ret].
  destruct (posixpath.splitext (posixpath.basename filepath)) as [name ext].
  apply checks_only_bind.
  - intros w. exact (checks_only_loop _ _ _ _ _ _ w).
  - intros p. apply checks_only_bind; [apply checks_only_lift|].
    intros _. apply checks_only_ret.
Qed.

(** What the loop returns: the path it was given when that is free,
    else the first free candidate from [counter] on.  It raises nothing,
    and runs out of fuel only after finding that many paths taken. *)
Lemma handle_duplicates_loop_spec directory name ext fuel :
  forall counter new_filepath w,
    match fst (handle_duplicates_loop fuel directory name ext counter new_filepath w) with
    | Ok p =>
      (p ∉ existing (w_fs w)) /\
      (((new_filepath ∉ existing (w_fs w)) /\ p = new_filepath) \/
       (new_filepath ∈ existing (w_fs w) /\
        exists j, (counter <= j)%Z /\ p = candidate directory name ext j /\
          forall i, (counter <= i < j)%Z ->
                    candidate directory name ext i ∈ existing (w_fs w)))
    | Raise _ => False
    | Diverge =>
      match fuel with
      | O => True
      | S fuel' =>
        new_filepath ∈ existing (w_fs w) /\
        forall i, (counter <= i < counter + Z.of_nat fuel')%Z ->
                  candidate directory name ext i ∈ existing (w_fs w)
      end
    end.
Proof.
  induction fuel as [|fuel IH]; intros counter new_filepath w; [exact I|].
  cbn [handle_duplicates_loop]. unfold mbind, py_bind, os_path_exists.
  case_bool_decide as Hin; [|simpl; auto].
  specialize (IH (counter + 1)%Z (candidate directory name ext counter)
                 (called (OpExists new_filepath) w)).
  fold (candidate directory name ext counter).
  change (w_fs (called (OpExists new_filepath) w)) with (w_fs w) in IH.
  destruct (fst (handle_duplicates_loop fuel directory name ext (counter + 1)
                   (candidate directory name ext counter)
                   (called (OpExists new_filepath) w))) as [p|e|].
  - destruct IH as [Hp [[Hfree ->]|[Htaken (j & Hj & -> & Hall)]]].
    + split; [exact Hfree|]. right. split; [exact Hin|].
      exists counter. split; [lia|]. split; [reflexivity|]. intros i Hi. lia.
    + split; [exact Hp|]. right. split; [exact Hin|].
      exists j. split; [lia|]. split; [reflexivity|]. intros i Hi.
      destruct (decide (i = counter)) as [->|Hne]; [exact Htaken | apply Hall; lia].
  - exact IH.
  - split; [exact Hin|]. destruct fuel as [|fuel']; [intros i Hi; lia|].
    destruct IH as [Htaken Hall]. intros i Hi.
    destruct (decide (i = counter)) as [->|Hne]; [exact Htaken | apply Hall; lia].
Qed.

(** More candidates than existing paths cannot all be taken. *)
Lemma candidates_not_all_taken (directory name ext : pystr) (counter : Z)
    (E : gset pystr) :
  ~ (forall i, (counter <= i < counter + Z.of_nat (S (size E)))%Z ->
               candidate directory name ext i ∈ E).
Proof.
  intros Hall.
  set (l := map (fun n => candidate directory name ext (counter + Z.of_nat n))
                (seq 0 (S (size E)))).
  assert (Hnodup : NoDup l).
  { apply NoDup_fmap_2_strong; [|apply NoDup_seq].
    intros n m _ _ E'. apply candidate_inj in E'. lia. }
  assert (Hsub : forall x, x ∈ l -> x ∈ elements E).
  { intros x Hx. apply list_elem_of_fmap in Hx as (n & -> & Hn).
    apply elem_of_seq in Hn. apply elem_of_elements, Hall. lia. }
  pose proof (submseteq_length _ _ (NoDup_submseteq _ _ Hnodup Hsub)) as Hlen.
  unfold l in Hlen. rewrite length_map, length_seq in Hlen.
  change (length (elements E)) with (size E) in Hlen. lia.
Qed.

End DuplicateHandling.

(** [handle_duplicates] in closed form. *)
Lemma handle_duplicates_run `{FileSystem}
    (self : NamingEngine.t) (filepath : pystr) (w : world) :
  exists p w',
    handle_duplicates self filepath w = (Ok p, w') /\
    w_fs w' = w_fs w /\
    (exists ops, w_ops w' = w_ops w ++ ops /\
                 Forall (fun op => is_check op = true) ops) /\
    first_free (existing (w_fs w)) filepath p.
Proof.
  unfold first_free.
  pose proof (checks_only_handle_duplicates self filepath w) as [Hfs Hops].
  destruct (handle_duplicates self filepath w) as [r w'] eqn:Erun.
  simpl in Hfs, Hops. revert Erun.
  unfold handle_duplicates, mbind, py_bind, os_path_exists.
  case_bool_decide as Hin; cbn [negb].
  2:{ intros [= <- <-]. exists filepath. eexists. split; [reflexivity|].
      split; [reflexivity|]. split; [exact Hops|].
      split; [exact Hin|]. left. split; [exact Hin | reflexivity]. }
  destruct (posixpath.splitext (posixpath.basename filepath)) as [name ext]. cbn [fst snd].
  pose proof (handle_duplicates_loop_spec (posixpath.dirname filepath) name ext
                (2 + size (existing (w_fs (called (OpExists filepath) w)))) 1 filepath
                (called (OpExists filepath) w)) as Hspec.
  destruct (handle_duplicates_loop
              (2 + size (existing (w_fs (called (OpExists filepath) w))))
              (posixpath.dirname filepath) name ext 1 filepath
              (called (OpExists filepath) w)) as [[p|e|] w1] eqn:Eloop;
    cbn [fst] in Hspec.
  - intros [= <- <-]. exists p. eexists. split; [reflexivity|].
    split; [exact Hfs|]. split; [exact Hops|]. exact Hspec.
  - contradiction.
  - exfalso. destruct Hspec as [_ Hall].
    exact (candidates_not_all_taken _ _ _ _ _ Hall).
Qed.

(** C3.  [handle_duplicates] always returns.  It returns the path it is
    given when that path does not exist; otherwise it returns the first
    of the candidates [stem_1.ext], [stem_2.ext], ... in the directory of
    the path that does not exist, every candidate before it being
    taken.  The path returned does not exist, and the filesystem is as
    it was: the calls made are existence checks. *)
Theorem handle_duplicates_first_free `{FileSystem}
    (self : NamingEngine.t) (filepath : pystr) (w : world) :
  exists p w',
    handle_duplicates self filepath w = (Ok p, w') /\
    w_fs w' = w_fs w /\
    (exists ops, w_ops w' = w_ops w ++ ops /\
                 Forall (fun op => is_check op = true) ops) /\
    first_free (existing (w_fs w)) filepath p.
Proof. apply handle_duplicates_run. Qed.

(** C3, the example of the specification: with [a.jpg] and [a_1.jpg]
    taken, [a.jpg] becomes [a_2.jpg]. *)
Lemma handle_duplicates_first_free_witness :
  let d := Disk (paths ["/out/a.jpg"; "/out/a_1.jpg"]) (paths ["/out"]) ∅ (str "/") in
  fst (handle_duplicates (NamingEngine.Build NamingEngine.DEFAULT_PATTERN)
         (str "/out/a.jpg") (on_disk d)) = Ok (str "/out/a_2.jpg") /\
  exists p w',
    handle_duplicates (NamingEngine.Build NamingEngine.DEFAULT_PATTERN)
      (str "/out/a.jpg") (on_disk d) = (Ok p, w') /\
    w_fs w' = d /\ (p ∉ disk_files d ∪ disk_dirs d).
Proof.
  intros d. split; [vm_compute; reflexivity|].
  destruct (handle_duplicates_first_free
              (NamingEngine.Build NamingEngine.DEFAULT_PATTERN)
              (str "/out/a.jpg") (on_disk d)) as (p & w' & Hrun & Hfs & _ & Hfree & _).
  exists p, w'. split; [exact Hrun|]. split; [exact Hfs | exact Hfree].
Defined.

(* ================================================================= *)
(** ** The flat hierarchy *)

Lemma split_no_sep sep comp :
  Forall (fun c => c <> sep) comp -> posixpath.split sep comp = [comp].
Proof.
  induction 1 as [|c comp Hc _ IH]; [reflexivity|]. simpl.
  rewrite (proj2 (Ascii.eqb_neq c sep) Hc), IH. reflexivity.
Qed.

Lemma split_app_sep sep comp rest :
  Forall (fun c => c <> sep) comp ->
  posixpath.split sep (comp ++ sep :: rest) = comp :: posixpath.split sep rest.
Proof.
  induction 1 as [|c comp Hc _ IH]; simpl.
  - rewrite Ascii.eqb_refl. reflexivity.
  - rewrite (proj2 (Ascii.eqb_neq c sep) Hc), IH. reflexivity.
Qed.

Lemma split_sep_join comps :
  Forall component_ok comps -> comps <> [] ->
  posixpath.split "/" (posixpath.sep_join (str "/") comps) = comps.
Proof.
  induction 1 as [|comp comps Hc Hcs IH]; intros Hne; [contradiction|].
  destruct Hc as (_ & _ & _ & Hc).
  destruct comps as [|comp' comps'].
  - simpl. apply split_no_sep. exact Hc.
  - change (posixpath.sep_join (str "/") (comp :: comp' :: comps'))
      with (comp ++ "/"%char :: posixpath.sep_join (str "/") (comp' :: comps')).
    rewrite split_app_sep by exact Hc. rewrite IH by discriminate. reflexivity.
Qed.

(** Splitting what was joined gives the parts back, when no part has
    the separator. *)
Lemma split_sep_join_parts (parts : list pystr) :
  Forall (Forall (fun c => c <> "/"%char)) parts -> parts <> [] ->
  posixpath.split "/" (posixpath.sep_join (str "/") parts) = parts.
Proof.
  induction 1 as [|part parts Hp Hps IH]; intros Hne; [contradiction|].
  destruct parts as [|part' parts'].
  - simpl. apply split_no_sep. exact Hp.
  - change (posixpath.sep_join (str "/") (part :: part' :: parts'))
      with (part ++ "/"%char :: posixpath.sep_join (str "/") (part' :: parts')).
    rewrite split_app_sep by exact Hp. rewrite IH by discriminate. reflexivity.
Qed.

Lemma normpath_step_keeps n acc comp :
  component_ok comp -> posixpath.normpath_step n acc comp = acc ++ [comp].
Proof.
  intros (Hne & Hdot & Hdots & _). unfold posixpath.normpath_step.
  rewrite (bool_decide_eq_false_2 (comp = [])) by exact Hne.
  rewrite (bool_decide_eq_false_2 (comp = str ".")) by exact Hdot.
  rewrite (bool_decide_eq_false_2 (comp = str "..")) by exact Hdots.
  reflexivity.
Qed.

Lemma normpath_fold_keeps n comps acc :
  Forall component_ok comps ->
  fold_left (posixpath.normpath_step n) comps acc = acc ++ comps.
Proof.
  intros Hcs. revert acc. induction Hcs as [|comp comps Hc _ IH]; intros acc; simpl.
  - rewrite app_nil_r. reflexivity.
  - rewrite normpath_step_keeps by exact Hc. rewrite IH, <- app_assoc. reflexivity.
Qed.

Lemma sep_join_no_leading_slash comps :
  Forall component_ok comps ->
  strip_prefix (str "/") (posixpath.sep_join (str "/") comps) = None.
Proof.
  destruct 1 as [|comp comps (Hne & _ & _ & Hc) _]; [reflexivity|].
  destruct comp as [|c comp]; [contradiction|]. apply Forall_cons in Hc as [Hc _].
  assert (E : exists rest, posixpath.sep_join (str "/") ((c :: comp) :: comps) = c :: rest).
  { destruct comps; simpl; eauto. }
  destruct E as [rest ->]. unfold str. cbn [list_ascii_of_string strip_prefix].
  rewrite (proj2 (Ascii.eqb_neq "/" c)) by congruence. reflexivity.
Qed.

Lemma startswith_slash rest :
  posixpath.startswith (str "/") ("/"%char :: rest) = true.
Proof.
  apply bool_decide_eq_true_2. exists rest. apply (strip_prefix_app (str "/") rest).
Qed.

Lemma startswith_two_slashes rest :
  strip_prefix (str "/") rest = None ->
  posixpath.startswith (str "//") ("/"%char :: rest) = false.
Proof.
  intros Hrest. apply bool_decide_eq_false_2. intros [x Hx].
  apply strip_prefix_Some in Hx.
  assert (Er : rest = str "/" ++ x) by (injection Hx as ->; reflexivity).
  rewrite Er, strip_prefix_app in Hrest. discriminate.
Qed.

(** [normpath] leaves an absolute path in normal form as it is. *)
Lemma normpath_normal_absolute path :
  normal_absolute path -> posixpath.normpath path = path.
Proof.
  intros (comps & -> & Hcs). unfold posixpath.normpath.
  pose proof (sep_join_no_leading_slash comps Hcs) as Hlead.
  rewrite startswith_slash, (startswith_two_slashes _ Hlead).
  assert (Hfold : fold_left (posixpath.normpath_step 1)
            (posixpath.split "/" ("/"%char :: posixpath.sep_join (str "/") comps)) []
          = comps).
  { destruct comps as [|comp comps'].
    - reflexivity.
    - change ("/"%char :: posixpath.sep_join (str "/") (comp :: comps'))
        with ([] ++ "/"%char :: posixpath.sep_join (str "/") (comp :: comps')).
      rewrite split_app_sep by constructor.
      rewrite split_sep_join by (assumption || discriminate).
      change (fold_left (posixpath.normpath_step 1) ([] :: comp :: comps') [])
        with (fold_left (posixpath.normpath_step 1) (comp :: comps') []).
      apply (normpath_fold_keeps 1 (comp :: comps') []). exact Hcs. }
  cbn [truthy negb andb]. rewrite Hfold. reflexivity.
Qed.

Lemma abspath_normal_absolute cwd path :
  normal_absolute path -> posixpath.abspath cwd path = path.
Proof.
  intros Hn. unfold posixpath.abspath, posixpath.isabs.
  assert (Habs : posixpath.startswith (str "/") path = true).
  { destruct Hn as (comps & -> & _). apply startswith_slash. }
  rewrite Habs. apply normpath_normal_absolute. exact Hn.
Qed.

Lemma os_path_abspath_run `{FileSystem} path w :
  exists w', os_path_abspath path w = (Ok (posixpath.abspath (getcwd (w_fs w)) path), w')
             /\ w_fs w' = w_fs w /\ w_log w' = w_log w.
Proof.
  unfold os_path_abspath, posixpath.abspath.
  destruct (posixpath.isabs path); cbn [negb]; eexists; (split; [reflexivity|]);
    split; reflexivity.
Qed.

(** C6, as the code has it.  With no hierarchy, the empty hierarchy or
    the preset [flat], the destination directory of every file is the
    base directory made absolute and normal by [os.path.abspath]
    (relative to the current directory), whatever the attributes; it is
    the base directory itself when that is already an absolute path in
    normal form. *)
Theorem flat_hierarchy_destination `{FileSystem}
    (base : pystr) (hierarchy : option pystr) (metadata : metadata) (w : world) :
  hierarchy = None \/ hierarchy = Some (str "flat") \/ hierarchy = Some [] ->
  exists self w',
    OrganizationEngine.__init__ base hierarchy w = (Ok self, w') /\
    w_fs w' = w_fs w /\
    OrganizationEngine.determine_destination_path self metadata =
      (Ok (posixpath.abspath (getcwd (w_fs w)) base), []) /\
    (normal_absolute base -> posixpath.abspath (getcwd (w_fs w)) base = base).
Proof.
  intros Hflat.
  destruct (os_path_abspath_run base w) as (w1 & Habs & Hfs & _).
  exists (OrganizationEngine.Build (posixpath.abspath (getcwd (w_fs w)) base) []).
  assert (Hpat : forall w0 : world,
    (match hierarchy with
     | None => mret []
     | Some h =>
       if bool_decide (h = str "flat") then mret []
       else if contains OrganizationEngine.HIERARCHY_TEMPLATES h
            then lift (getitem OrganizationEngine.HIERARCHY_TEMPLATES h)
            else mret h
     end : Py pystr) w0 = (Ok [], w0)).
  { intros w0. destruct Hflat as [-> | [-> | ->]]; reflexivity. }
  unfold OrganizationEngine.__init__, mbind, py_bind.
  rewrite Habs, Hpat. eexists. split; [reflexivity|].
  split; [exact Hfs|]. split; [reflexivity|].
  apply abspath_normal_absolute.
Qed.

Lemma flat_hierarchy_destination_witness :
  let d := Disk ∅ ∅ ∅ (str "/home/user") in
  exists self w',
    OrganizationEngine.__init__ (str "/photos/2024") (Some (str "flat")) (on_disk d)
      = (Ok self, w') /\
    OrganizationEngine.determine_destination_path self (md [("year", "2023")]) =
      (Ok (str "/photos/2024"), []).
Proof.
  intros d.
  destruct (flat_hierarchy_destination (str "/photos/2024") (Some (str "flat"))
              (md [("year", "2023")]) (on_disk d)) as (self & w' & Hinit & _ & Hdest & Hnorm).
  - right. left. reflexivity.
  - exists self, w'. split; [exact Hinit|]. rewrite Hdest, Hnorm; [reflexivity|].
    exists [str "photos"; str "2024"]. split; [reflexivity|].
    repeat constructor; discriminate.
Defined.

(** C6, counterexample to the claim as stated: a relative base directory
    comes back joined to the current directory, and a final slash is
    dropped. *)
Lemma flat_hierarchy_changes_base :
  let d := Disk ∅ ∅ ∅ (str "/home/user") in
  (exists self,
     fst (OrganizationEngine.__init__ (str "photos") (Some (str "flat")) (on_disk d))
       = Ok self /\
     fst (OrganizationEngine.determine_destination_path self ∅)
       = Ok (str "/home/user/photos")) /\
  (exists self,
     fst (OrganizationEngine.__init__ (str "/photos/") (Some (str "flat")) (on_disk d))
       = Ok self /\
     fst (OrganizationEngine.determine_destination_path self ∅)
       = Ok (str "/photos")).
Proof.
  intros d. split; eexists; (split; [vm_compute; reflexivity|]); vm_compute; reflexivity.
Qed.

(* ================================================================= *)
(** ** Organizing files *)

Lemma naming_init_default :
  NamingEngine.__init__ None =
  (Ok (NamingEngine.Build NamingEngine.DEFAULT_PATTERN),
   [Log DEBUG (str "Naming pattern validated: %s") [NamingEngine.DEFAULT_PATTERN]]).
Proof. vm_compute. reflexivity. Qed.

Section Organizing.
Context `{FileSystem}.

Lemma returns_ret {A} (a : A) : returns (mret a).
Proof. intros w. discriminate. Qed.

Lemma returns_raise {A} e : returns (@raise _ A e).
Proof. intros w. discriminate. Qed.

Lemma returns_lift {A} (c : Logged A) : fst c <> Diverge -> returns (lift c).
Proof. intros Hc w. exact Hc. Qed.

Lemma returns_log lvl fmt args : returns (log lvl fmt args).
Proof. intros w. discriminate. Qed.

Lemma returns_exists path : returns (os_path_exists path).
Proof. intros w. discriminate. Qed.

Lemma returns_isfile path : returns (os_path_isfile path).
Proof. intros w. discriminate. Qed.

Lemma returns_change op f : returns (change op f).
Proof.
  intros w. unfold change. destruct (f (w_fs w)) as [[e|] fs']; discriminate.
Qed.

Lemma returns_bind {A B} (c : Py A) (f : A -> Py B) :
  returns c -> (forall a, returns (f a)) -> returns (c ≫= f).
Proof.
  intros Hc Hf w. unfold mbind, py_bind. specialize (Hc w).
  destruct (c w) as [[a|e|] w1]; simpl in *; [apply Hf | discriminate | contradiction].
Qed.

Lemma returns_try_except {A} (body : Py A) handler :
  returns body -> (forall e, returns (handler e)) -> returns (try_except body handler).
Proof.
  intros Hb Hh w. unfold try_except. specialize (Hb w).
  destruct (body w) as [[a|e|] w1]; simpl in *; [discriminate | apply Hh | contradiction].
Qed.

Lemma returns_handle_duplicates self filepath : returns (handle_duplicates self filepath).
Proof.
  intros w. destruct (handle_duplicates_run self filepath w) as (p & w' & -> & _).
  discriminate.
Qed.

Lemma organize_file_returns self source_path metadata new_filename dry_run move :
  returns (OrganizationEngine.organize_file self source_path metadata new_filename
             dry_run move).
Proof.
  unfold OrganizationEngine.organize_file.
  apply returns_bind; [apply returns_isfile|]. intros is_file.
  destruct (negb is_file).
  { apply returns_bind; [apply returns_log | intros _; apply returns_raise]. }
  apply returns_bind.
  { apply returns_lift. rewrite determine_destination_path_run. discriminate. }
  intros dest_dir. apply returns_bind.
  { apply returns_lift. rewrite naming_init_default. discriminate. }
  intros naming. apply returns_bind; [apply returns_handle_duplicates|].
  intros dest_path. apply returns_bind; [apply returns_log|]. intros _.
  destruct dry_run; [apply returns_ret|].
  apply returns_bind.
  { unfold OrganizationEngine._ensure_directory_exists.
    apply returns_bind; [apply returns_exists|]. intros found.
    destruct (negb found); [|apply returns_ret].
    apply returns_bind; [apply returns_change | intros _; apply returns_log]. }
  intros _. apply returns_bind; [|intros _; apply returns_ret].
  apply returns_try_except.
  - destruct move; apply returns_change.
  - intros e. destruct (is_OSError e); [|apply returns_raise].
    apply returns_bind; [apply returns_log | intros _; apply returns_raise].
Qed.

End Organizing.

(** C8.  In simulation mode [organize_file] leaves the filesystem as it
    is, and the only calls it makes are checks of whether a path is a
    file or exists: no directory is made, nothing is moved or copied.
    When the source is a file it returns the source path and the
    destination it decided on, which is the free path chosen for the
    destination directory joined with the new name; when it is not, it
    raises [FileNotFoundError]. *)
Theorem organize_file_dry_run `{FileSystem}
    (self : OrganizationEngine.t) (source_path : pystr) (metadata : metadata)
    (new_filename : pystr) (move : bool) (w : world) :
  exists r w',
    OrganizationEngine.organize_file self source_path metadata new_filename true move w
      = (r, w') /\
    w_fs w' = w_fs w /\
    (exists ops, w_ops w' = w_ops w ++ ops /\
                 Forall (fun op => is_check op = true) ops) /\
    (((source_path ∉ regular (w_fs w)) /\
      r = Raise (FileNotFoundError (str "Source file not found: " ++ source_path))) \/
     (source_path ∈ regular (w_fs w) /\
      exists dest_path,
        first_free (existing (w_fs w))
          (posixpath.join (destination_of self metadata) new_filename) dest_path /\
        r = Ok (source_path, dest_path))).
Proof.
  unfold OrganizationEngine.organize_file, mbind, py_bind, os_path_isfile.
  case_bool_decide as Hreg; cbn [negb].
  - unfold lift at 1. rewrite determine_destination_path_run. cbn [fst snd].
    fold (destination_of self metadata).
    unfold lift at 1. rewrite naming_init_default. cbn [fst snd].
    match goal with |- context [handle_duplicates ?n ?fp ?w0] =>
      destruct (handle_duplicates_run n fp w0) as (p & w1 & -> & Hfs & (ops & Hops & Hchk) & Hfree)
    end.
    cbn [w_fs w_ops called] in Hfs, Hops, Hfree.
    eexists. eexists. split; [reflexivity|]. cbn [log lift llog fst snd w_fs w_ops].
    split; [exact Hfs|]. split.
    + exists (OpIsfile source_path :: ops). split.
      * rewrite Hops, <- app_assoc. reflexivity.
      * constructor; [reflexivity | exact Hchk].
    + right. split; [exact Hreg|]. exists p. split; [exact Hfree | reflexivity].
  - eexists. eexists. split; [reflexivity|]. cbn.
    split; [reflexivity|]. split.
    + exists [OpIsfile source_path]. split; [reflexivity | repeat constructor].
    + left. split; [exact Hreg | reflexivity].
Qed.

(** C10.  When the two lists differ in length [organize_files] raises
    [ValueError] at once: the state is the one it was called in, so no
    file was looked at, moved or copied, and nothing was logged. *)
Theorem organize_files_length_mismatch `{FileSystem}
    (self : OrganizationEngine.t) (files_metadata : list metadata)
    (new_filenames : list pystr) (dry_run move : bool) (w : world) :
  length files_metadata <> length new_filenames ->
  OrganizationEngine.organize_files self files_metadata new_filenames dry_run move w =
  (Raise (ValueError (str "Length of files_metadata and new_filenames must match")), w).
Proof.
  intros Hlen. unfold OrganizationEngine.organize_files.
  rewrite (proj2 (Nat.eqb_neq _ _) Hlen). reflexivity.
Qed.

Section Batch.
Context `{FileSystem}.

Lemma world_log_nil (w : world) : World (w_fs w) (w_log w ++ []) (w_ops w) = w.
Proof. destruct w. simpl. rewrite app_nil_r. reflexivity. Qed.

(** One turn of the loop. *)
Lemma organize_each_cons self metadata new_filename items dry_run move results w
    source_path :
  metadata !! str "file_path" = Some source_path ->
  OrganizationEngine.organize_each self ((metadata, new_filename) :: items)
    dry_run move results w =
  let '(entry, w1) :=
    entry_of source_path
      (OrganizationEngine.organize_file self source_path metadata new_filename
         dry_run move w) in
  OrganizationEngine.organize_each self items dry_run move (results ++ [entry]) w1.
Proof.
  intros Hpath. cbn [OrganizationEngine.organize_each].
  unfold mbind at 1. unfold py_bind, lift, getitem. rewrite Hpath. cbn [fst snd mret logged_ret].
  rewrite world_log_nil.
  unfold mbind at 1. unfold py_bind, try_except, mbind, py_bind.
  pose proof (organize_file_returns self source_path metadata new_filename
                dry_run move w) as Hret.
  destruct (OrganizationEngine.organize_file self source_path metadata new_filename
              dry_run move w) as [[r|e|] w1]; cbn [fst] in Hret.
  - reflexivity.
  - reflexivity.
  - contradiction.
Qed.

(** The loop gives every file an entry, whatever the entries so far, and
    the state it leaves does not depend on them. *)
Lemma organize_each_run self dry_run move items :
  Forall (fun item => has_file_path (fst item)) items ->
  forall w, exists rs w',
    length rs = length items /\
    forall results,
      OrganizationEngine.organize_each self items dry_run move results w =
      (Ok (results ++ rs), w').
Proof.
  induction 1 as [|[metadata new_filename] items [source_path Hpath] _ IH]; intros w.
  - exists [], w. split; [reflexivity|]. intros results. rewrite app_nil_r. reflexivity.
  - cbn [fst] in Hpath.
    destruct (entry_of source_path
                (OrganizationEngine.organize_file self source_path metadata
                   new_filename dry_run move w)) as [entry w1] eqn:Eentry.
    destruct (IH w1) as (rs & w' & Hlen & Hrun).
    exists (entry :: rs), w'. split; [simpl; lia|].
    intros results. rewrite (organize_each_cons _ _ _ _ _ _ _ _ _ Hpath), Eentry.
    rewrite Hrun, <- app_assoc. reflexivity.
Qed.

Lemma organize_each_app self dry_run move items1 items2 :
  Forall (fun item => has_file_path (fst item)) items1 ->
  forall w results rs1 w1,
    OrganizationEngine.organize_each self items1 dry_run move [] w = (Ok rs1, w1) ->
    OrganizationEngine.organize_each self (items1 ++ items2) dry_run move results w =
    OrganizationEngine.organize_each self items2 dry_run move (results ++ rs1) w1.
Proof.
  induction 1 as [|[metadata new_filename] items [source_path Hpath] Hitems IH];
    intros w results rs1 w1 Hrun.
  - injection Hrun as <- <-. rewrite app_nil_r. reflexivity.
  - cbn [fst] in Hpath. cbn [app].
    rewrite (organize_each_cons _ _ _ _ _ _ _ _ _ Hpath) in Hrun.
    rewrite (organize_each_cons _ _ _ _ _ _ _ _ _ Hpath).
    destruct (entry_of source_path
                (OrganizationEngine.organize_file self source_path metadata
                   new_filename dry_run move w)) as [entry w0].
    destruct (organize_each_run self dry_run move items Hitems w0)
      as (rs & w' & _ & Hrs).
    rewrite (Hrs ([] ++ [entry])) in Hrun. injection Hrun as <- <-.
    rewrite (IH w0 (results ++ [entry]) rs w' (Hrs [])).
    rewrite <- app_assoc. reflexivity.
Qed.

Lemma organize_files_each self files_metadata new_filenames dry_run move w :
  length files_metadata = length new_filenames ->
  OrganizationEngine.organize_files self files_metadata new_filenames dry_run move w =
  OrganizationEngine.organize_each self (zip files_metadata new_filenames)
    dry_run move [] w.
Proof.
  intros Hlen. unfold OrganizationEngine.organize_files.
  rewrite Hlen, Nat.eqb_refl. reflexivity.
Qed.

Lemma zip_has_file_path (files_metadata : list metadata) (new_filenames : list pystr) :
  Forall has_file_path files_metadata ->
  Forall (fun item => has_file_path (fst item)) (zip files_metadata new_filenames).
Proof.
  intros Hall. revert new_filenames.
  induction Hall as [|m ms Hm _ IH]; intros [|nf nfs]; simpl; constructor; auto.
Qed.

End Batch.

(** C7.  A file that fails does not stop the batch.  For lists of equal
    length whose attribute maps name their files, the files before a
    given file get the entries and leave the state they would alone;
    the file itself gets one entry, the pair that [organize_file]
    returns or, when it raises, the source path and the text of the
    exception, and in that case what it did to the filesystem stays;
    the files after it are then organized from that state as they would
    be alone.  The result has one entry per file, in order. *)
Theorem organize_files_isolation `{FileSystem}
    (self : OrganizationEngine.t) (dry_run move : bool)
    (before after : list metadata) (names_before names_after : list pystr)
    (metadata : metadata) (new_filename source_path : pystr) (w : world) :
  length before = length names_before ->
  length after = length names_after ->
  Forall has_file_path before ->
  Forall has_file_path after ->
  metadata !! str "file_path" = Some source_path ->
  exists rs1 w1 entry w2 rs2 w3,
    OrganizationEngine.organize_files self before names_before dry_run move w
      = (Ok rs1, w1) /\
    length rs1 = length before /\
    OrganizationEngine.organize_files self [metadata] [new_filename] dry_run move w1
      = (Ok [entry], w2) /\
    (forall r wf,
       OrganizationEngine.organize_file self source_path metadata new_filename
         dry_run move w1 = (Ok r, wf) ->
       entry = r /\ w2 = wf) /\
    (forall e wf,
       OrganizationEngine.organize_file self source_path metadata new_filename
         dry_run move w1 = (Raise e, wf) ->
       entry = (source_path, exn_str e) /\ w_fs w2 = w_fs wf /\ w_ops w2 = w_ops wf) /\
    OrganizationEngine.organize_files self after names_after dry_run move w2
      = (Ok rs2, w3) /\
    length rs2 = length after /\
    OrganizationEngine.organize_files self
      (before ++ metadata :: after) (names_before ++ new_filename :: names_after)
      dry_run move w
      = (Ok (rs1 ++ entry :: rs2), w3).
Proof.
  intros Hlen1 Hlen2 Hbefore Hafter Hpath.
  pose proof (zip_has_file_path before names_before Hbefore) as Hitems1.
  pose proof (zip_has_file_path after names_after Hafter) as Hitems2.
  destruct (organize_each_run self dry_run move _ Hitems1 w) as (rs1 & w1 & Hl1 & Hrun1).
  destruct (entry_of source_path
              (OrganizationEngine.organize_file self source_path metadata
                 new_filename dry_run move w1)) as [entry w2] eqn:Eentry.
  destruct (organize_each_run self dry_run move _ Hitems2 w2) as (rs2 & w3 & Hl2 & Hrun2).
  exists rs1, w1, entry, w2, rs2, w3.
  rewrite length_zip_with_l_eq in Hl1 by exact Hlen1.
  rewrite length_zip_with_l_eq in Hl2 by exact Hlen2.
  split; [rewrite organize_files_each by exact Hlen1; apply (Hrun1 [])|].
  split; [exact Hl1|].
  split.
  { rewrite organize_files_each by reflexivity. cbn [zip_with].
    rewrite (organize_each_cons _ _ _ _ _ _ _ _ _ Hpath), Eentry. reflexivity. }
  split.
  { intros r wf Hok. rewrite Hok in Eentry. injection Eentry as <- <-. auto. }
  split.
  { intros e wf Hraise. rewrite Hraise in Eentry. injection Eentry as <- <-. auto. }
  split; [rewrite organize_files_each by exact Hlen2; apply (Hrun2 [])|].
  split; [exact Hl2|].
  rewrite organize_files_each by (rewrite !length_app; simpl; lia).
  rewrite zip_with_app by exact Hlen1. cbn [zip_with].
  rewrite (organize_each_app _ _ _ _ _ Hitems1 w [] rs1 w1 (Hrun1 [])).
  rewrite (organize_each_cons _ _ _ _ _ _ _ _ _ Hpath), Eentry.
  rewrite (Hrun2 (([] ++ rs1) ++ [entry])). cbn [app].
  rewrite <- app_assoc. reflexivity.
Qed.

(** C7, the example of the specification: the second of three files
    cannot be moved; the first and the third are moved and stay moved,
    and each of the three has its entry. *)
Lemma organize_files_isolation_witness :
  let run :=
    OrganizationEngine.organize_files example_engine
      [example_a; example_b; example_c] [str "a.jpg"; str "b.jpg"; str "c.jpg"]
      false true (on_disk example_disk) in
  fst run = Ok [ (str "/in/a.jpg", str "/out/2021/a.jpg");
                 (str "/in/b.jpg", str "[Errno 13] Permission denied: /out/2022/b.jpg");
                 (str "/in/c.jpg", str "/out/2023/c.jpg") ] /\
  disk_files (w_fs (snd run)) = paths ["/in/b.jpg"; "/out/2021/a.jpg"; "/out/2023/c.jpg"] /\
  exists rs, fst run = Ok rs /\ length rs = 3.
Proof.
  intros run. split; [vm_compute; reflexivity|]. split; [vm_compute; reflexivity|].
  destruct (organize_files_isolation example_engine false true
              [example_a] [example_c] [str "a.jpg"] [str "c.jpg"]
              example_b (str "b.jpg") (str "/in/b.jpg") (on_disk example_disk))
    as (rs1 & w1 & entry & w2 & rs2 & w3 & _ & Hl1 & _ & _ & _ & _ & Hl2 & Hall).
  - reflexivity.
  - reflexivity.
  - constructor; [|constructor]. exists (str "/in/a.jpg"). vm_compute. reflexivity.
  - constructor; [|constructor]. exists (str "/in/c.jpg"). vm_compute. reflexivity.
  - vm_compute. reflexivity.
  - exists (rs1 ++ entry :: rs2). subst run. split.
    + change ([example_a; example_b; example_c]) with ([example_a] ++ example_b :: [example_c]).
      change ([str "a.jpg"; str "b.jpg"; str "c.jpg"])
        with ([str "a.jpg"] ++ str "b.jpg" :: [str "c.jpg"]).
      rewrite Hall. reflexivity.
    + rewrite length_app. simpl. rewrite Hl1, Hl2. reflexivity.
Defined.

Lemma organize_files_length_mismatch_witness :
  OrganizationEngine.organize_files example_engine [example_a; example_b] [str "a.jpg"]
    false true (on_disk example_disk) =
  (Raise (ValueError (str "Length of files_metadata and new_filenames must match")),
   on_disk example_disk).
Proof.
  apply (organize_files_length_mismatch example_engine [example_a; example_b]
           [str "a.jpg"] false true (on_disk example_disk)).
  simpl. lia.
Defined.

(** C8, on the example: in simulation mode the three files are planned
    and the disk is as it was. *)
Lemma organize_file_dry_run_witness :
  let run :=
    OrganizationEngine.organize_file example_engine (str "/in/a.jpg") example_a
      (str "a.jpg") true true (on_disk example_disk) in
  fst run = Ok (str "/in/a.jpg", str "/out/2021/a.jpg") /\
  w_fs (snd run) = example_disk /\
  w_ops (snd run) = [OpIsfile (str "/in/a.jpg"); OpExists (str "/out/2021/a.jpg")].
Proof.
  intros run.
  destruct (organize_file_dry_run example_engine (str "/in/a.jpg") example_a
              (str "a.jpg") true (on_disk example_disk))
    as (r & w' & Hrun & Hfs & _).
  split; [vm_compute; reflexivity|].
  split; [subst run; rewrite Hrun; exact Hfs | vm_compute; reflexivity].
Defined.

(* ================================================================= *)
(** ** Placeholders without a value *)

Lemma filter_missing_warnings (metadata : metadata) ps :
  flat_map (fun p => if missing metadata p then [placeholder_warning p] else []) ps =
  map placeholder_warning (filter (fun p => missing metadata p = true) ps).
Proof.
  induction ps as [|p ps IH]; [reflexivity|].
  cbn [flat_map]. rewrite filter_cons, IH.
  destruct (missing metadata p) eqn:Em.
  - rewrite decide_True by reflexivity. reflexivity.
  - rewrite decide_False by discriminate. reflexivity.
Qed.

(** The value an engine substitutes is the default for a placeholder
    without a value, and the attribute for any other. *)
Lemma value_or_degraded (default : pystr) (metadata : metadata) (p : pystr) :
  value_or default metadata p = degraded default metadata p.
Proof.
  unfold value_or, degraded, missing.
  destruct (metadata !! p) as [v|]; [|reflexivity].
  destruct (truthy v); reflexivity.
Qed.

Lemma render_ext (val val' : pystr -> pystr) (ts : list token) :
  (forall p, val p = val' p) -> render val ts = render val' ts.
Proof.
  intros Hval. unfold render. apply flat_map_ext.
  intros [l|n]; [reflexivity | apply Hval].
Qed.

Lemma single_pass_safe_ext (val val' : pystr -> pystr) (ns : list pystr) :
  (forall p, val p = val' p) -> single_pass_safe val ns = single_pass_safe val' ns.
Proof.
  intros Hval. induction ns as [|p ns IH]; [reflexivity|].
  cbn [single_pass_safe]. rewrite IH, (Hval p). reflexivity.
Qed.

Lemma sep_join_nonempty (parts : list pystr) :
  parts <> [] -> Forall (fun part => part <> []) parts ->
  posixpath.sep_join (str "/") parts <> [].
Proof.
  intros Hne Hall. destruct parts as [|part [|part' rest]]; [contradiction | |];
    apply Forall_cons in Hall as [Hp _]; [exact Hp|].
  cbn [posixpath.sep_join]. destruct part; [contradiction | discriminate].
Qed.

(** The segments of a hierarchy, each read as tokens, are rendered one
    by one and joined to the path. *)
Lemma token_hierarchy_run (metadata : metadata) (segs : list (list token)) dest_path :
  Forall (fun seg => segment_ok seg /\
            single_pass_safe (degraded (str "unknown") metadata) (names seg) = true) segs ->
  fold_left (add_segment_value metadata) (map template_text segs) dest_path =
  fold_left posixpath.join (map (render (degraded (str "unknown") metadata)) segs) dest_path.
Proof.
  intros Hsegs. revert dest_path.
  induction Hsegs as [|seg segs [(Hts & Hne & _) Hsafe] _ IH]; intros dest_path;
    [reflexivity|].
  cbn [map fold_left]. rewrite <- IH. f_equal.
  unfold add_segment_value, segment_value.
  rewrite (proj2 (truthy_nonempty _) Hne).
  rewrite replace_each_render_safe.
  - f_equal. apply render_ext. intros p. apply value_or_degraded.
  - exact Hts.
  - rewrite (single_pass_safe_ext _ (degraded (str "unknown") metadata)); [exact Hsafe|].
    intros p. apply value_or_degraded.
Qed.

Lemma token_hierarchy_destination (metadata : metadata) dest (segs : list (list token)) :
  segs <> [] ->
  Forall (fun seg => segment_ok seg /\
            single_pass_safe (degraded (str "unknown") metadata) (names seg) = true) segs ->
  OrganizationEngine.determine_destination_path
    (OrganizationEngine.Build dest (posixpath.sep_join (str "/") (map template_text segs)))
    metadata =
  (Ok (fold_left posixpath.join
         (map (render (degraded (str "unknown") metadata)) segs) dest), []).
Proof.
  intros Hne Hsegs. rewrite determine_destination_path_run.
  cbn [OrganizationEngine.hierarchy_pattern OrganizationEngine.destination].
  assert (Htruthy : truthy (posixpath.sep_join (str "/") (map template_text segs)) = true).
  { apply truthy_nonempty, sep_join_nonempty.
    - destruct segs; [contradiction | discriminate].
    - apply Forall_map. eapply Forall_impl; [exact Hsegs|].
      intros seg [(_ & Hn & _) _]. exact Hn. }
  rewrite Htruthy, split_sep_join_parts.
  - rewrite token_hierarchy_run by exact Hsegs. reflexivity.
  - apply Forall_map. eapply Forall_impl; [exact Hsegs|].
    intros seg [(_ & _ & Hslash) _]. exact Hslash.
  - destruct segs; [contradiction | discriminate].
Qed.

(** C2.  A placeholder whose attribute is absent or empty raises no
    error in either engine, and the value returned has the empty string,
    or [unknown], in its place.  [generate_filename] returns for every
    pattern and attribute map: the sanitized result of the successive
    replacements, in which such a placeholder is replaced by the empty
    string, followed by the extension; it logs one warning for each such
    placeholder, in order.  [determine_destination_path] returns for
    every hierarchy and attribute map, without logging: the base
    directory joined with each segment that is not empty after the
    successive replacements, in which such a placeholder is replaced by
    [unknown].  The step of either loop does that replacement.  For a
    pattern read as tokens, the name returned is the sanitized text of
    the tokens with the empty string at every such placeholder; for a
    hierarchy whose segments are read as tokens, the directory returned
    has, segment by segment, [unknown] at every such placeholder.  The
    last two hold when the values substituted are inert for the
    placeholders listed after them. *)
Theorem missing_placeholder_degrades (metadata : metadata) :
  (forall self,
     NamingEngine.generate_filename self metadata =
     (Ok (_clean_filename
            (replace_each (degraded [] metadata)
               (findall (NamingEngine.pattern self)) (NamingEngine.pattern self))
          ++ extension_suffix metadata),
      map placeholder_warning
        (filter (fun p => missing metadata p = true)
           (findall (NamingEngine.pattern self))))) /\
  (forall self,
     OrganizationEngine.determine_destination_path self metadata =
     (Ok (if truthy (OrganizationEngine.hierarchy_pattern self) then
            fold_left
              (fun dest_path segment =>
                 if truthy segment then
                   posixpath.join dest_path
                     (replace_each (degraded (str "unknown") metadata)
                        (findall segment) segment)
                 else dest_path)
              (posixpath.split "/" (OrganizationEngine.hierarchy_pattern self))
              (OrganizationEngine.destination self)
          else OrganizationEngine.destination self), [])) /\
  (forall p s, missing metadata p = true ->
     NamingEngine.substitute metadata s p =
     (Ok (replace (braced p) [] s), [placeholder_warning p])) /\
  (forall p s, missing metadata p = true ->
     OrganizationEngine.substitute metadata s p =
     (Ok (replace (braced p) (str "unknown") s), [])) /\
  (forall self ts,
     template_text ts = NamingEngine.pattern self ->
     Forall token_ok ts ->
     single_pass_safe (degraded [] metadata) (names ts) = true ->
     NamingEngine.generate_filename self metadata =
     (Ok (_clean_filename (render (degraded [] metadata) ts)
          ++ extension_suffix metadata),
      map placeholder_warning
        (filter (fun p => missing metadata p = true) (names ts)))) /\
  (forall dest (segs : list (list token)),
     segs <> [] ->
     Forall (fun seg => segment_ok seg /\
               single_pass_safe (degraded (str "unknown") metadata) (names seg) = true)
       segs ->
     OrganizationEngine.determine_destination_path
       (OrganizationEngine.Build dest
          (posixpath.sep_join (str "/") (map template_text segs))) metadata =
     (Ok (fold_left posixpath.join
            (map (render (degraded (str "unknown") metadata)) segs) dest), [])).
Proof.
  split; [|split; [|split; [|split; [|split]]]].
  - intros self. rewrite generate_filename_run, filter_missing_warnings.
    rewrite (replace_each_ext _ (degraded [] metadata))
      by (intros p; apply value_or_degraded).
    reflexivity.
  - intros self. rewrite determine_destination_path_run.
    destruct (truthy (OrganizationEngine.hierarchy_pattern self)); [|reflexivity].
    f_equal. f_equal.
    generalize (OrganizationEngine.destination self).
    induction (posixpath.split "/" (OrganizationEngine.hierarchy_pattern self))
      as [|segment segments IH]; intros dest_path; [reflexivity|].
    cbn [fold_left]. rewrite IH. f_equal.
    unfold add_segment_value, segment_value.
    rewrite (replace_each_ext _ (degraded (str "unknown") metadata))
      by (intros p; apply value_or_degraded).
    reflexivity.
  - intros p s Hm. rewrite naming_substitute_run, Hm, (value_or_missing _ _ _ Hm).
    reflexivity.
  - intros p s Hm. rewrite organization_substitute_run, (value_or_missing _ _ _ Hm).
    reflexivity.
  - intros self ts Htext Hts Hsafe.
    rewrite generate_filename_run, filter_missing_warnings, <- Htext.
    rewrite (findall_template ts Hts) at 2.
    rewrite replace_each_render_safe.
    + rewrite (render_ext _ (degraded [] metadata))
        by (intros p; apply value_or_degraded).
      reflexivity.
    + exact Hts.
    + rewrite (single_pass_safe_ext _ (degraded [] metadata)); [exact Hsafe|].
      intros p. apply value_or_degraded.
  - intros dest segs Hne Hsegs. apply token_hierarchy_destination; assumption.
Qed.

(** C2, on the examples of the specification: with the year alone, the
    name made from [{year}_{month}] is the year (the underscore left at
    the end is stripped) with one warning, and the directory made from
    [{year}/{month}] ends in [2023/unknown]. *)
Lemma missing_placeholder_degrades_witness :
  NamingEngine.generate_filename (NamingEngine.Build (str "{year}_{month}"))
    (md [("year", "2023"); ("extension", "jpg")]) =
  (Ok (str "2023.jpg"), [placeholder_warning (str "month")]) /\
  OrganizationEngine.determine_destination_path
    (OrganizationEngine.Build (str "/base") (str "{year}/{month}"))
    (md [("year", "2023"); ("extension", "jpg")]) =
  (Ok (str "/base/2023/unknown"), []) /\
  NamingEngine.substitute (md [("year", "2023"); ("extension", "jpg")])
    (str "{year}_{month}") (str "month")
    = (Ok (str "{year}_"), [placeholder_warning (str "month")]).
Proof.
  destruct (missing_placeholder_degrades (md [("year", "2023"); ("extension", "jpg")]))
    as (_ & _ & Hstep & _ & Hname & Hdir).
  split; [|split].
  - rewrite (Hname (NamingEngine.Build (str "{year}_{month}"))
               [Ph (str "year"); Lit (str "_"); Ph (str "month")]).
    + vm_compute. reflexivity.
    + reflexivity.
    + repeat constructor; discriminate.
    + vm_compute. reflexivity.
  - change (str "{year}/{month}")
      with (posixpath.sep_join (str "/")
              (map template_text [[Ph (str "year")]; [Ph (str "month")]])).
    rewrite Hdir.
    + vm_compute. reflexivity.
    + discriminate.
    + constructor; [|constructor; [|constructor]];
        (split; [|vm_compute; reflexivity]);
        (split; [repeat constructor; discriminate|]);
        (split; [discriminate | repeat constructor; discriminate]).
  - rewrite Hstep; vm_compute; reflexivity.
Defined.

(* ================================================================= *)
(** * Further properties *)

(* ================================================================= *)
(** ** The shape of sanitized names *)

Lemma lstrip_length chars s : length (lstrip chars s) <= length s.
Proof.
  induction s as [|c s IH]; simpl; [lia|]. destruct (char_in chars c); simpl; lia.
Qed.

Lemma lstrip_fixed_head chars c s :
  lstrip chars (c :: s) = c :: s -> char_in chars c = false.
Proof.
  simpl. destruct (char_in chars c); [|reflexivity]. intros E.
  pose proof (lstrip_length chars s) as Hlen. rewrite E in Hlen. simpl in Hlen. lia.
Qed.

Lemma rstrip_fixed_last chars s c :
  rstrip chars s = s -> last s = Some c -> char_in chars c = false.
Proof.
  induction s as [|a s IH]; [discriminate|]. intros Hfix Hlast.
  rewrite rstrip_unfold in Hfix. destruct s as [|b s'].
  - simpl in Hfix, Hlast. injection Hlast as <-.
    destruct (char_in chars a); [discriminate | reflexivity].
  - assert (Hs : rstrip chars (b :: s') = b :: s').
    { destruct (rstrip chars (b :: s')); [|congruence].
      destruct (char_in chars a); discriminate. }
    apply IH; [exact Hs | exact Hlast].
Qed.

Lemma single_underscores_no_double a b :
  single_underscores (a ++ "_"%char :: "_"%char :: b) = false.
Proof.
  induction a as [|c a IH]; [reflexivity|].
  change ((c :: a) ++ "_"%char :: "_"%char :: b)
    with (c :: a ++ "_"%char :: "_"%char :: b).
  destruct (a ++ "_"%char :: "_"%char :: b) as [|c' r] eqn:E; [discriminate|].
  rewrite single_underscores_cons2, IH. apply andb_false_r.
Qed.

Lemma underscore_char_in c : char_in (str "_") c = is_underscore c.
Proof. unfold char_in, is_underscore. simpl. apply orb_false_r. Qed.

Lemma clean_result_shape (filename : pystr) :
  _clean_filename filename <> [] /\
  head (_clean_filename filename) <> Some "_"%char /\
  last (_clean_filename filename) <> Some "_"%char /\
  (forall a b, _clean_filename filename <> a ++ str "__" ++ b).
Proof.
  destruct (clean_filename_cases filename) as [E|[E Hne]].
  - rewrite E. split; [discriminate|]. split; [discriminate|]. split; [discriminate|].
    intros a b Hab. apply (f_equal single_underscores) in Hab.
    change (a ++ str "__" ++ b) with (a ++ "_"%char :: "_"%char :: b) in Hab.
    rewrite single_underscores_no_double in Hab. discriminate.
  - destruct (clean_steps_invariant filename) as (_ & Hsingle & Hstrip).
    rewrite <- E in Hsingle, Hstrip.
    assert (Hl : lstrip (str "_") (_clean_filename filename) = _clean_filename filename).
    { rewrite E. unfold strip. apply lstrip_rstrip, lstrip_idempotent. }
    assert (Hr : rstrip (str "_") (_clean_filename filename) = _clean_filename filename).
    { rewrite E at 1. unfold strip. rewrite rstrip_idempotent. symmetry. exact E. }
    split; [exact Hne|]. split; [|split].
    + destruct (_clean_filename filename) as [|c r]; [discriminate|].
      apply lstrip_fixed_head in Hl. intros [= ->]. discriminate.
    + intros Hlast. pose proof (rstrip_fixed_last _ _ _ Hr Hlast). discriminate.
    + intros a b Hab. rewrite Hab in Hsingle.
      change (a ++ str "__" ++ b) with (a ++ "_"%char :: "_"%char :: b) in Hsingle.
      rewrite single_underscores_no_double in Hsingle. discriminate.
Qed.

(** X1.  What every name returned by [_clean_filename] looks like: it is
    not empty, its first and its last character are not underscores, and
    it has no two underscores in a row. *)
Theorem clean_filename_shape (filename : pystr) :
  _clean_filename filename <> [] /\
  head (_clean_filename filename) <> Some "_"%char /\
  last (_clean_filename filename) <> Some "_"%char /\
  (forall a b, _clean_filename filename <> a ++ str "__" ++ b).
Proof. apply clean_result_shape. Qed.

Lemma lstrip_all chars s :
  Forall (fun c => char_in chars c = true) s -> lstrip chars s = [].
Proof. induction 1 as [|c s Hc _ IH]; simpl; [reflexivity|]. rewrite Hc. exact IH. Qed.

Lemma sub_underscore_runs_all s :
  Forall (fun c => is_underscore c = true) s ->
  Forall (fun c => is_underscore c = true) (sub_underscore_runs s).
Proof. apply sub_underscore_runs_Forall. Qed.

(** X3.  A name made only of reserved characters and underscores, the
    empty name among them, becomes [unnamed_file]. *)
Theorem clean_filename_unnamed (filename : pystr) :
  Forall (fun c => is_invalid_char c || is_underscore c = true) filename ->
  _clean_filename filename = str "unnamed_file".
Proof.
  intros Hall. unfold _clean_filename, strip.
  rewrite lstrip_all; [reflexivity|].
  eapply Forall_impl;
    [apply sub_underscore_runs_all | intros c Hc; rewrite underscore_char_in; exact Hc].
  unfold sub_invalid_chars. induction Hall as [|c s Hc _ IH]; constructor; [|exact IH].
  destruct (is_invalid_char c); [reflexivity | exact Hc].
Qed.

Lemma clean_filename_unnamed_witness :
  _clean_filename (str "__:*?__") = str "unnamed_file".
Proof.
  apply clean_filename_unnamed. repeat constructor.
Defined.

Lemma single_underscores_iff s :
  single_underscores s = true <-> (forall a b, s <> a ++ str "__" ++ b).
Proof.
  split.
  - intros Hs a b ->.
    change (a ++ str "__" ++ b) with (a ++ "_"%char :: "_"%char :: b) in Hs.
    rewrite single_underscores_no_double in Hs. discriminate.
  - induction s as [|c s IH]; [reflexivity|]. intros Hno.
    destruct s as [|c' s']; [reflexivity|].
    rewrite single_underscores_cons2. apply andb_true_iff. split.
    + apply negb_true_iff. apply not_true_is_false. intros Hcc.
      apply andb_true_iff in Hcc as [Hc Hc'].
      apply Ascii.eqb_eq in Hc, Hc'. subst c c'. apply (Hno [] s'). reflexivity.
    + apply IH. intros a b Hab. apply (Hno (c :: a) b). rewrite Hab. reflexivity.
Qed.

(** X2.  The names [_clean_filename] leaves unchanged are exactly those
    of that shape without reserved characters: not empty, no reserved
    character, no underscore first or last, no two underscores in a
    row. *)
Theorem clean_filename_fixed_points (name : pystr) :
  _clean_filename name = name <->
  name <> [] /\
  Forall (fun c => is_invalid_char c = false) name /\
  head name <> Some "_"%char /\
  last name <> Some "_"%char /\
  (forall a b, name <> a ++ str "__" ++ b).
Proof.
  split.
  - intros Hfix. pose proof (clean_result_shape name) as Hshape.
    pose proof (clean_filename_reserved_free name) as Hfree.
    rewrite Hfix in Hshape, Hfree. tauto.
  - intros (Hne & Hfree & Hhead & Hlast & Hdouble).
    apply clean_filename_fixed; [exact Hfree | | | exact Hne].
    + apply single_underscores_iff. exact Hdouble.
    + unfold strip.
      assert (Hl : lstrip (str "_") name = name).
      { destruct name as [|c r]; [reflexivity|]. cbn [lstrip].
        rewrite underscore_char_in. unfold is_underscore.
        destruct (Ascii.eqb c "_") eqn:E; [|reflexivity].
        apply Ascii.eqb_eq in E. subst c. exfalso. apply Hhead. reflexivity. }
      rewrite Hl. clear Hl Hhead Hne Hfree Hdouble.
      induction name as [|c r IH]; [reflexivity|]. rewrite rstrip_unfold.
      destruct r as [|c' r'].
      * cbn [rstrip]. rewrite underscore_char_in. unfold is_underscore.
        destruct (Ascii.eqb c "_") eqn:E; [|reflexivity].
        apply Ascii.eqb_eq in E. subst c. exfalso. apply Hlast. reflexivity.
      * rewrite IH by exact Hlast. reflexivity.
Qed.

(* ================================================================= *)
(** ** No placeholder is left in a generated name *)

Lemma clean_filename_brace_free s : brace_free s -> brace_free (_clean_filename s).
Proof.
  intros Hs. destruct (clean_filename_cases s) as [E|[E _]]; rewrite E.
  - unfold brace_free. repeat constructor.
  - apply rstrip_Forall, lstrip_Forall, sub_underscore_runs_Forall.
    unfold sub_invalid_chars. clear E.
    induction Hs as [|c r Hc _ IH]; [constructor|]. constructor; [|exact IH].
    destruct (is_invalid_char c); [reflexivity | exact Hc].
Qed.

Lemma render_brace_free val ts :
  Forall word_token_ok ts -> Forall (fun p => brace_free (val p)) (names ts) ->
  brace_free (render val ts).
Proof.
  unfold render, names, brace_free.
  induction 1 as [|[l|n] ts Ht _ IH]; intros Hval; cbn [flat_map].
  - constructor.
  - apply Forall_app. split; [exact Ht | apply IH; exact Hval].
  - cbn [app] in Hval. apply Forall_cons in Hval as [Hn Hval].
    apply Forall_app. split; [exact Hn | apply IH; exact Hval].
Qed.

Lemma value_or_brace_free (metadata : metadata) p :
  map_Forall (fun _ v => brace_free v) metadata -> brace_free (value_or [] metadata p).
Proof.
  intros Hall. unfold value_or. destruct (metadata !! p) as [v|] eqn:E; [|constructor].
  destruct (truthy v); [|constructor]. exact (Hall p v E).
Qed.

(** X4.  For a template that [_validate_pattern] accepts and an attribute
    map whose values have no brace, the generated name has no brace:
    every placeholder of the template has been replaced, by its value
    or by nothing. *)
Theorem generate_filename_no_brace_left (self : NamingEngine.t) (metadata : metadata) :
  fst (NamingEngine._validate_pattern (NamingEngine.pattern self)) = Ok tt ->
  map_Forall (fun _ v => brace_free v) metadata ->
  exists name,
    fst (NamingEngine.generate_filename self metadata) = Ok name /\ brace_free name.
Proof.
  intros Hvalid Hvalues.
  apply validate_pattern_ok in Hvalid as [_ (ts & Hts & Htext)].
  rewrite generate_filename_run, <- Htext. cbn [fst]. eexists. split; [reflexivity|].
  rewrite replace_each_render.
  - apply Forall_app. split.
    + apply clean_filename_brace_free, render_brace_free; [exact Hts|].
      apply Forall_forall. intros p _. apply value_or_brace_free. exact Hvalues.
    + unfold extension_suffix.
      destruct (metadata !! str "extension") as [ext|] eqn:E; [|constructor].
      destruct (truthy ext); [|constructor].
      apply Forall_app. split; [repeat constructor | exact (Hvalues _ _ E)].
  - eapply Forall_impl; [exact Hts | apply word_token_token_ok].
  - apply Forall_forall. intros p _.
    apply brace_free_lbrace_free, value_or_brace_free. exact Hvalues.
Qed.

Lemma generate_filename_no_brace_left_witness :
  exists name,
    fst (NamingEngine.generate_filename
           (NamingEngine.Build (str "{date}_{camera}"))
           (md [("date", "2023-05-01"); ("extension", "jpg")])) = Ok name /\
    brace_free name.
Proof.
  apply generate_filename_no_brace_left.
  - vm_compute. reflexivity.
  - unfold md. cbn [map list_to_map foldr uncurry].
    repeat (apply map_Forall_insert_2; [repeat constructor|]).
    apply map_Forall_empty.
Defined.

(* ================================================================= *)
(** ** Destination directories, segment by segment *)


Lemma value_or_unknown_nonempty (metadata : metadata) p :
  value_or (str "unknown") metadata p <> [].
Proof.
  unfold value_or. destruct (metadata !! p) as [v|]; [|discriminate].
  destruct (truthy v) eqn:E; [|discriminate]. apply truthy_nonempty. exact E.
Qed.



Lemma braced_no_slash n :
  Forall (fun c => c <> "/"%char) n -> Forall (fun c => c <> "/"%char) (braced n).
Proof.
  intros Hn. rewrite braced_cons. constructor; [discriminate|].
  apply Forall_app. split; [exact Hn | repeat constructor; discriminate].
Qed.

Lemma segment_value_braced (metadata : metadata) n :
  n <> [] -> brace_free n ->
  lbrace_free (value_or (str "unknown") metadata n) ->
  segment_value metadata (braced n) = value_or (str "unknown") metadata n.
Proof.
  intros Hne Hn Hval. unfold segment_value.
  pose proof (replace_each_render (value_or (str "unknown") metadata) [Ph n]) as Hr.
  unfold template_text, render, names in Hr. cbn [flat_map token_text] in Hr.
  rewrite !app_nil_r in Hr. apply Hr; repeat constructor; assumption.
Qed.

(** A placeholder name as the hierarchy presets have them. *)
Lemma hierarchy_of_names_run (metadata : metadata) ns dest_path :
  Forall (fun n => n <> [] /\ brace_free n /\ Forall (fun c => c <> "/"%char) n) ns ->
  Forall (fun n => lbrace_free (value_or (str "unknown") metadata n)) ns ->
  fold_left (add_segment_value metadata) (map braced ns) dest_path =
  fold_left posixpath.join (map (value_or (str "unknown") metadata) ns) dest_path.
Proof.
  intros Hns. revert dest_path.
  induction Hns as [|n ns (Hne & Hn & _) _ IH]; intros dest_path Hval; [reflexivity|].
  apply Forall_cons in Hval as [Hv Hval]. cbn [map fold_left].
  rewrite <- IH by exact Hval. f_equal.
  unfold add_segment_value.
  rewrite (proj2 (truthy_nonempty (braced n)) (braced_nonempty n)).
  rewrite segment_value_braced by assumption. reflexivity.
Qed.

Lemma hierarchy_of_names_destination (metadata : metadata) ns dest :
  ns <> [] ->
  Forall (fun n => n <> [] /\ brace_free n /\ Forall (fun c => c <> "/"%char) n) ns ->
  Forall (fun n => lbrace_free (value_or (str "unknown") metadata n)) ns ->
  OrganizationEngine.determine_destination_path
    (OrganizationEngine.Build dest (posixpath.sep_join (str "/") (map braced ns)))
    metadata =
  (Ok (fold_left posixpath.join (map (value_or (str "unknown") metadata) ns) dest), []).
Proof.
  intros Hne Hns Hval. rewrite determine_destination_path_run.
  cbn [OrganizationEngine.hierarchy_pattern OrganizationEngine.destination].
  assert (Htruthy : truthy (posixpath.sep_join (str "/") (map braced ns)) = true).
  { apply truthy_nonempty. destruct ns as [|n [|n' ns']]; [contradiction | |].
    - simpl. apply braced_nonempty.
    - cbn [map posixpath.sep_join]. rewrite braced_cons. discriminate. }
  rewrite Htruthy. rewrite split_sep_join_parts.
  - rewrite hierarchy_of_names_run by assumption. reflexivity.
  - apply Forall_map. eapply Forall_impl; [exact Hns|].
    intros n (_ & _ & Hslash). apply braced_no_slash. exact Hslash.
  - destruct ns; [contradiction | discriminate].
Qed.

(** X6.  For a hierarchy made of placeholders separated by slashes, as
    the presets other than [flat] are, the destination is the base
    directory joined
    with one directory per placeholder, in order: the value of the
    attribute, or [unknown] when it is absent or empty.  The names have
    no brace and no slash, and the values that are substituted no
    opening brace. *)
Theorem placeholder_hierarchy_destination (metadata : metadata)
    (ns : list pystr) (dest : pystr) :
  ns <> [] ->
  Forall (fun n => n <> [] /\ brace_free n /\ Forall (fun c => c <> "/"%char) n) ns ->
  Forall (fun n => lbrace_free (value_or (str "unknown") metadata n)) ns ->
  OrganizationEngine.determine_destination_path
    (OrganizationEngine.Build dest (posixpath.sep_join (str "/") (map braced ns)))
    metadata =
  (Ok (fold_left posixpath.join (map (value_or (str "unknown") metadata) ns) dest), []).
Proof. apply hierarchy_of_names_destination. Qed.

Lemma placeholder_hierarchy_destination_witness :
  OrganizationEngine.HIERARCHY_TEMPLATES !! str "camera_date" =
    Some (posixpath.sep_join (str "/")
            (map braced [str "camera"; str "year"; str "month"; str "day"])) /\
  OrganizationEngine.determine_destination_path
    (OrganizationEngine.Build (str "/out")
       (posixpath.sep_join (str "/")
          (map braced [str "camera"; str "year"; str "month"; str "day"])))
    (md [("camera", "Canon_EOS"); ("year", "2023"); ("day", "01")]) =
  (Ok (str "/out/Canon_EOS/2023/unknown/01"), []).
Proof.
  split; [vm_compute; reflexivity|].
  rewrite (placeholder_hierarchy_destination
             (md [("camera", "Canon_EOS"); ("year", "2023"); ("day", "01")])
             [str "camera"; str "year"; str "month"; str "day"] (str "/out")).
  - vm_compute. reflexivity.
  - discriminate.
  - repeat (constructor; [split; [discriminate|]; split; repeat constructor; discriminate|]).
    constructor.
  - repeat (constructor; [vm_compute; repeat constructor|]). constructor.
Defined.

(** X7.  An attribute value that starts with a slash takes the place of
    the base directory: with the hierarchy [{n}], the destination is
    that value, and the base directory is not part of it. *)
Theorem absolute_value_replaces_base (metadata : metadata) (n dest value : pystr) :
  n <> [] -> brace_free n -> Forall (fun c => c <> "/"%char) n ->
  metadata !! n = Some ("/"%char :: value) ->
  lbrace_free value ->
  OrganizationEngine.determine_destination_path
    (OrganizationEngine.Build dest (braced n)) metadata =
  (Ok ("/"%char :: value), []).
Proof.
  intros Hne Hn Hslash Hlookup Hvalue.
  assert (Hv : value_or (str "unknown") metadata n = "/"%char :: value).
  { unfold value_or. rewrite Hlookup. reflexivity. }
  pose proof (hierarchy_of_names_destination metadata [n] dest) as Hrun.
  cbn [map posixpath.sep_join fold_left] in Hrun. rewrite Hrun.
  - rewrite Hv. unfold posixpath.join. rewrite startswith_slash. reflexivity.
  - discriminate.
  - repeat constructor; assumption.
  - constructor; [|constructor]. rewrite Hv. constructor; [reflexivity | exact Hvalue].
Qed.

Lemma absolute_value_replaces_base_witness :
  OrganizationEngine.determine_destination_path
    (OrganizationEngine.Build (str "/out") (str "{camera}"))
    (md [("camera", "/etc/cron.d")]) =
  (Ok (str "/etc/cron.d"), []).
Proof.
  apply (absolute_value_replaces_base (md [("camera", "/etc/cron.d")])
           (str "camera") (str "/out") (str "etc/cron.d")).
  - discriminate.
  - repeat constructor.
  - repeat constructor; discriminate.
  - vm_compute. reflexivity.
  - repeat constructor.
Defined.

Lemma startswith_slash_head s :
  posixpath.startswith (str "/") s = false <-> head s <> Some "/"%char.
Proof.
  unfold posixpath.startswith. destruct s as [|c s].
  - split; [discriminate|]. intros _. apply bool_decide_eq_false_2.
    intros [x Hx]. discriminate.
  - unfold str. cbn [list_ascii_of_string strip_prefix head].
    destruct (Ascii.eqb "/" c) eqn:E.
    + apply Ascii.eqb_eq in E. subst c. split.
      * intros Hb. apply bool_decide_eq_false in Hb. exfalso. apply Hb.
        destruct s; eauto.
      * intros Hh. contradiction Hh. reflexivity.
    + apply Ascii.eqb_neq in E. split; [intros _ [= ->]; congruence|].
      intros _. apply bool_decide_eq_false_2. intros [x Hx]. discriminate.
Qed.

Lemma replace_keeps_head old new s :
  old <> [] -> new <> [] ->
  head new <> Some "/"%char -> head s <> Some "/"%char ->
  head (replace old new s) <> Some "/"%char.
Proof.
  intros Hold Hnew Hhn Hhs. destruct old as [|a old]; [contradiction|].
  destruct s as [|c s]; [discriminate|].
  unfold replace. cbn [length replace_fuel].
  destruct (strip_prefix (a :: old) (c :: s)); [|exact Hhs].
  destruct new; [contradiction | exact Hhn].
Qed.

Lemma split_parts_no_sep sep s :
  Forall (Forall (fun c => c <> sep)) (posixpath.split sep s).
Proof.
  induction s as [|c s IH]; [repeat constructor|]. simpl.
  destruct (Ascii.eqb c sep) eqn:E.
  - constructor; [constructor | exact IH].
  - apply Ascii.eqb_neq in E. destruct (posixpath.split sep s) as [|seg segs].
    + repeat constructor. exact E.
    + apply Forall_cons in IH as [Hseg Hsegs].
      constructor; [constructor; assumption | exact Hsegs].
Qed.

Lemma join_extends a b :
  head b <> Some "/"%char -> exists k, posixpath.join a b = a ++ k.
Proof.
  intros Hb. apply startswith_slash_head in Hb. unfold posixpath.join. rewrite Hb.
  destruct (negb (truthy a) || posixpath.endswith (str "/") a); eauto.
Qed.

(** X8.  When no attribute value starts with a slash, the destination
    directory is the base directory followed by more text, for every
    hierarchy: nothing is put before the base directory or in its
    place. *)
Theorem destination_extends_base (self : OrganizationEngine.t) (metadata : metadata) :
  map_Forall (fun _ v => head v <> Some "/"%char) metadata ->
  exists rest,
    OrganizationEngine.determine_destination_path self metadata =
    (Ok (OrganizationEngine.destination self ++ rest), []).
Proof.
  intros Hvalues. rewrite determine_destination_path_run.
  destruct (truthy (OrganizationEngine.hierarchy_pattern self));
    [|exists []; rewrite app_nil_r; reflexivity].
  pose proof (split_parts_no_sep "/" (OrganizationEngine.hierarchy_pattern self)) as Hsegs.
  revert Hsegs. generalize (posixpath.split "/" (OrganizationEngine.hierarchy_pattern self)).
  intros segs.
  assert (Hgen : forall acc, Forall (Forall (fun c => c <> "/"%char)) segs ->
            exists rest, fold_left (add_segment_value metadata) segs acc = acc ++ rest).
  { induction segs as [|seg segs IH]; intros acc Hsegs.
    - exists []. rewrite app_nil_r. reflexivity.
    - apply Forall_cons in Hsegs as [Hseg Hsegs]. cbn [fold_left].
      assert (Hstep : exists k, add_segment_value metadata acc seg = acc ++ k).
      { unfold add_segment_value. destruct (truthy seg);
          [|exists []; rewrite app_nil_r; reflexivity].
        apply join_extends. unfold segment_value, replace_each.
        assert (Hhead : head seg <> Some "/"%char).
        { destruct seg as [|c seg']; [discriminate|].
          apply Forall_cons in Hseg as [Hc _]. intros [= ->]. congruence. }
        revert Hhead. generalize (findall seg). intros ps. clear Hseg. revert seg.
        induction ps as [|p ps IHps]; intros seg Hhead; [exact Hhead|].
        cbn [fold_left]. apply IHps. apply replace_keeps_head;
          [apply braced_nonempty | apply value_or_unknown_nonempty | | exact Hhead].
        unfold value_or. destruct (metadata !! p) as [v|] eqn:E; [|discriminate].
        destruct (truthy v); [exact (Hvalues p v E) | discriminate]. }
      destruct Hstep as [k ->]. destruct (IH (acc ++ k) Hsegs) as [rest ->].
      exists (k ++ rest). rewrite app_assoc. reflexivity. }
  intros Hsegs.
  destruct (Hgen (OrganizationEngine.destination self) Hsegs) as [rest ->]. eauto.
Qed.

Lemma destination_extends_base_witness :
  exists rest,
    OrganizationEngine.determine_destination_path
      (OrganizationEngine.Build (str "/out") (str "/by_{year}//{camera}/"))
      (md [("year", "2023")]) =
    (Ok (str "/out" ++ rest), []).
Proof.
  apply (destination_extends_base
           (OrganizationEngine.Build (str "/out") (str "/by_{year}//{camera}/"))
           (md [("year", "2023")])).
  unfold md. cbn [map list_to_map foldr uncurry].
  repeat (apply map_Forall_insert_2; [discriminate|]).
  apply map_Forall_empty.
Defined.

(** X9.  A hierarchy that is neither [flat] nor the name of a preset is
    taken as a template as it is.  When it has no opening brace and no
    slash, such as a mistyped preset name, it is one literal directory:
    every file goes to the base directory joined with that text,
    whatever its attributes. *)
Theorem unknown_hierarchy_is_literal `{FileSystem}
    (base hierarchy : pystr) (metadata : metadata) (w : world) :
  hierarchy <> [] ->
  OrganizationEngine.HIERARCHY_TEMPLATES !! hierarchy = None ->
  lbrace_free hierarchy ->
  Forall (fun c => c <> "/"%char) hierarchy ->
  exists self w',
    OrganizationEngine.__init__ base (Some hierarchy) w = (Ok self, w') /\
    w_fs w' = w_fs w /\
    OrganizationEngine.determine_destination_path self metadata =
      (Ok (posixpath.join (posixpath.abspath (getcwd (w_fs w)) base) hierarchy), []).
Proof.
  intros Hne Hpreset Hbrace Hslash.
  destruct (os_path_abspath_run base w) as (w1 & Habs & Hfs & _).
  assert (Hflat : bool_decide (hierarchy = str "flat") = false).
  { apply bool_decide_eq_false_2. intros ->. vm_compute in Hpreset. discriminate. }
  unfold OrganizationEngine.__init__, mbind, py_bind.
  rewrite Habs, Hflat, contains_lookup, Hpreset.
  eexists. eexists. split; [reflexivity|]. split; [exact Hfs|].
  rewrite determine_destination_path_run.
  cbn [OrganizationEngine.hierarchy_pattern OrganizationEngine.destination].
  rewrite (proj2 (truthy_nonempty hierarchy) Hne).
  rewrite split_no_sep by exact Hslash. cbn [fold_left].
  unfold add_segment_value, segment_value.
  rewrite (proj2 (truthy_nonempty hierarchy) Hne).
  pose proof (findall_lbrace_free hierarchy [] Hbrace) as Hfind.
  rewrite app_nil_r in Hfind. rewrite Hfind. reflexivity.
Qed.

Lemma unknown_hierarchy_is_literal_witness :
  exists self w',
    OrganizationEngine.__init__ (str "/out") (Some (str "dates")) (on_disk example_disk)
      = (Ok self, w') /\
    OrganizationEngine.determine_destination_path self example_a =
      (Ok (str "/out/dates"), []).
Proof.
  destruct (unknown_hierarchy_is_literal (str "/out") (str "dates") example_a
              (on_disk example_disk)) as (self & w' & Hinit & _ & Hdest).
  - discriminate.
  - vm_compute. reflexivity.
  - repeat constructor.
  - repeat constructor; discriminate.
  - exists self, w'. split; [exact Hinit|]. rewrite Hdest. vm_compute. reflexivity.
Defined.

(* ================================================================= *)
(** ** Organizing one file *)

(** X10.  When the source is not a regular file, [organize_file] raises
    [FileNotFoundError] in either mode, having only asked whether the
    source is a file and logged the error: no destination is computed,
    nothing is created. *)
Theorem organize_file_source_missing `{FileSystem}
    (self : OrganizationEngine.t) (source_path : pystr) (metadata : metadata)
    (new_filename : pystr) (dry_run move : bool) (w : world) :
  source_path ∉ regular (w_fs w) ->
  OrganizationEngine.organize_file self source_path metadata new_filename
    dry_run move w =
  (Raise (FileNotFoundError (str "Source file not found: " ++ source_path)),
   World (w_fs w)
     (w_log w ++ [Log ERROR (str "Source file not found: %s") [source_path]])
     (w_ops w ++ [OpIsfile source_path])).
Proof.
  intros Hreg.
  unfold OrganizationEngine.organize_file, mbind, py_bind, os_path_isfile.
  rewrite bool_decide_eq_false_2 by exact Hreg. reflexivity.
Qed.

Lemma organize_file_source_missing_witness :
  fst (OrganizationEngine.organize_file example_engine (str "/in/zz.jpg") example_a
         (str "a.jpg") false true (on_disk example_disk)) =
  Raise (FileNotFoundError (str "Source file not found: /in/zz.jpg")).
Proof.
  rewrite (organize_file_source_missing example_engine (str "/in/zz.jpg") example_a
             (str "a.jpg") false true (on_disk example_disk)).
  - reflexivity.
  - vm_compute. discriminate.
Defined.

(** X11.  What [organize_file] does to the filesystem when it applies a
    decision (the source being a regular file): after its checks it
    makes the destination directory if that does not exist, and then
    issues one transfer, a move or a copy as asked and never the other,
    of the source to the destination it chose, a path that did not exist
    when it was called.  It returns the pair of source and destination
    only after that transfer; if making the directory raises, there is
    no transfer. *)
Theorem organize_file_apply `{FileSystem}
    (self : OrganizationEngine.t) (source_path : pystr) (metadata : metadata)
    (new_filename : pystr) (move : bool) (w : world) :
  source_path ∈ regular (w_fs w) ->
  exists r w' dest_path checks changes,
    OrganizationEngine.organize_file self source_path metadata new_filename
      false move w = (r, w') /\
    first_free (existing (w_fs w))
      (posixpath.join (destination_of self metadata) new_filename) dest_path /\
    Forall (fun op => is_check op = true) checks /\
    w_ops w' = w_ops w ++ checks ++ changes /\
    let transfer :=
      if move then OpMove source_path dest_path else OpCopy2 source_path dest_path in
    ((changes = [OpMakedirs (destination_of self metadata)] /\ exists e, r = Raise e) \/
     ((changes = [OpMakedirs (destination_of self metadata); transfer] \/
       changes = [transfer]) /\
      (r = Ok (source_path, dest_path) \/ exists e, r = Raise e))).
Proof.
  intros Hreg.
  unfold OrganizationEngine.organize_file, mbind, py_bind, os_path_isfile.
  rewrite bool_decide_eq_true_2 by exact Hreg. cbn [negb].
  unfold lift at 1. rewrite determine_destination_path_run. cbn [fst snd].
  fold (destination_of self metadata).
  unfold lift at 1. rewrite naming_init_default. cbn [fst snd].
  match goal with |- context [handle_duplicates ?n ?fp ?w0] =>
    destruct (handle_duplicates_run n fp w0)
      as (p & w1 & -> & Hfs & (ops & Hops & Hchk) & Hfree)
  end.
  cbn [w_fs w_ops called] in Hfs, Hops, Hfree.
  destruct w1 as [fs1 log1 ops1]. cbn [w_fs w_ops] in Hfs, Hops.
  cbn [log lift llog fst snd].
  unfold OrganizationEngine._ensure_directory_exists, mbind, py_bind, os_path_exists,
    os_makedirs, try_except, shutil_move_, shutil_copy2_, change, log, lift, llog, raise,
    mret, py_ret.
  cbn [w_fs w_ops w_log called fst snd].
  assert (Hchecks : forall extra,
            Forall (fun op => is_check op = true) extra ->
            Forall (fun op => is_check op = true)
              (OpIsfile source_path :: ops ++ extra)).
  { intros extra Hextra. constructor; [reflexivity|].
    apply Forall_app. split; assumption. }
  case_bool_decide as Hdir;
    cbv beta iota delta [negb w_fs w_ops w_log called fst snd].
  - (* The directory exists. *)
    destruct move.
    + destruct (shutil_move source_path p fs1) as [[e|] fs2];
          cbv beta iota delta [fst snd w_fs w_ops w_log called];
        [destruct (is_OSError e)|];
        (eexists; eexists; exists p, (OpIsfile source_path :: ops ++
             [OpExists (destination_of self metadata)]),
             [OpMove source_path p];
         split; [reflexivity|]; split; [exact Hfree|];
         split; [apply Hchecks; repeat constructor|];
         split; [rewrite Hops; cbn [app]; rewrite <- !app_assoc; reflexivity|];
         right; split; [right; reflexivity | eauto]).
    + destruct (shutil_copy2 source_path p fs1) as [[e|] fs2];
          cbv beta iota delta [fst snd w_fs w_ops w_log called];
        [destruct (is_OSError e)|];
        (eexists; eexists; exists p, (OpIsfile source_path :: ops ++
             [OpExists (destination_of self metadata)]),
             [OpCopy2 source_path p];
         split; [reflexivity|]; split; [exact Hfree|];
         split; [apply Hchecks; repeat constructor|];
         split; [rewrite Hops; cbn [app]; rewrite <- !app_assoc; reflexivity|];
         right; split; [right; reflexivity | eauto]).
  - (* The directory is made first. *)
    destruct (makedirs (destination_of self metadata) fs1) as [[e|] fs3];
      cbv beta iota delta [fst snd w_fs w_ops w_log called].
    + eexists; eexists; exists p, (OpIsfile source_path :: ops ++
             [OpExists (destination_of self metadata)]),
             [OpMakedirs (destination_of self metadata)].
      split; [reflexivity|]. split; [exact Hfree|].
      split; [apply Hchecks; repeat constructor|].
      split; [rewrite Hops; cbn [app]; rewrite <- !app_assoc; reflexivity|].
      left. split; [reflexivity | eauto].
    + destruct move.
      * destruct (shutil_move source_path p fs3) as [[e|] fs2];
          cbv beta iota delta [fst snd w_fs w_ops w_log called];
          [destruct (is_OSError e)|];
          (eexists; eexists; exists p, (OpIsfile source_path :: ops ++
               [OpExists (destination_of self metadata)]),
               [OpMakedirs (destination_of self metadata); OpMove source_path p];
           split; [reflexivity|]; split; [exact Hfree|];
           split; [apply Hchecks; repeat constructor|];
           split; [rewrite Hops; cbn [app]; rewrite <- !app_assoc; reflexivity|];
           right; split; [left; reflexivity | eauto]).
      * destruct (shutil_copy2 source_path p fs3) as [[e|] fs2];
          cbv beta iota delta [fst snd w_fs w_ops w_log called];
          [destruct (is_OSError e)|];
          (eexists; eexists; exists p, (OpIsfile source_path :: ops ++
               [OpExists (destination_of self metadata)]),
               [OpMakedirs (destination_of self metadata); OpCopy2 source_path p];
           split; [reflexivity|]; split; [exact Hfree|];
           split; [apply Hchecks; repeat constructor|];
           split; [rewrite Hops; cbn [app]; rewrite <- !app_assoc; reflexivity|];
           right; split; [left; reflexivity | eauto]).
Qed.

Lemma organize_file_apply_witness :
  let run :=
    OrganizationEngine.organize_file example_engine (str "/in/a.jpg") example_a
      (str "a.jpg") false false (on_disk example_disk) in
  w_ops (snd run) =
    [OpIsfile (str "/in/a.jpg"); OpExists (str "/out/2021/a.jpg");
     OpExists (str "/out/2021"); OpMakedirs (str "/out/2021");
     OpCopy2 (str "/in/a.jpg") (str "/out/2021/a.jpg")] /\
  exists dest_path checks changes,
    Forall (fun op => is_check op = true) checks /\
    w_ops (snd run) = checks ++ changes /\
    (dest_path ∉ disk_files example_disk ∪ disk_dirs example_disk).
Proof.
  intros run. split; [vm_compute; reflexivity|].
  destruct (organize_file_apply example_engine (str "/in/a.jpg") example_a
              (str "a.jpg") false (on_disk example_disk))
    as (r & w' & dest_path & checks & changes & Hrun & Hfree & Hchk & Hops & _).
  - vm_compute. reflexivity.
  - exists dest_path, checks, changes. split; [exact Hchk|].
    split; [subst run; rewrite Hrun; exact Hops | apply Hfree].
Defined.

(* ================================================================= *)
(** ** The batch *)

(** X12.  [organize_files] reads [file_path] outside its [try]: at the
    first attribute map without that key the batch stops with
    [KeyError].  The files before it have been organized and what was
    done for them stays, but their entries are not returned, and the
    files after it are not looked at. *)
Theorem organize_files_missing_file_path `{FileSystem}
    (self : OrganizationEngine.t) (dry_run move : bool)
    (before after : list metadata) (names_before names_after : list pystr)
    (metadata : metadata) (new_filename : pystr) (w : world) :
  length before = length names_before ->
  length after = length names_after ->
  Forall has_file_path before ->
  metadata !! str "file_path" = None ->
  exists rs1 w1,
    OrganizationEngine.organize_files self before names_before dry_run move w
      = (Ok rs1, w1) /\
    OrganizationEngine.organize_files self
      (before ++ metadata :: after) (names_before ++ new_filename :: names_after)
      dry_run move w
      = (Raise (KeyError (str "file_path")), w1).
Proof.
  intros Hlen1 Hlen2 Hbefore Hmissing.
  pose proof (zip_has_file_path before names_before Hbefore) as Hitems1.
  destruct (organize_each_run self dry_run move _ Hitems1 w) as (rs1 & w1 & _ & Hrun1).
  exists rs1, w1.
  split; [rewrite organize_files_each by exact Hlen1; apply (Hrun1 [])|].
  rewrite organize_files_each by (rewrite !length_app; simpl; lia).
  rewrite zip_with_app by exact Hlen1. cbn [zip_with].
  rewrite (organize_each_app _ _ _ _ _ Hitems1 w [] rs1 w1 (Hrun1 [])).
  cbn [OrganizationEngine.organize_each].
  unfold mbind at 1. unfold py_bind, lift, getitem. rewrite Hmissing.
  cbn [fst snd lraise]. rewrite world_log_nil. reflexivity.
Qed.

Lemma organize_files_missing_file_path_witness :
  let run :=
    OrganizationEngine.organize_files example_engine
      [example_a; md [("year", "2022")]; example_c]
      [str "a.jpg"; str "b.jpg"; str "c.jpg"] false true (on_disk example_disk) in
  fst run = Raise (KeyError (str "file_path")) /\
  disk_files (w_fs (snd run)) = paths ["/in/b.jpg"; "/in/c.jpg"; "/out/2021/a.jpg"].
Proof.
  intros run.
  destruct (organize_files_missing_file_path example_engine false true
              [example_a] [example_c] [str "a.jpg"] [str "c.jpg"]
              (md [("year", "2022")]) (str "b.jpg") (on_disk example_disk))
    as (rs1 & w1 & _ & Hall).
  - reflexivity.
  - reflexivity.
  - constructor; [|constructor]. exists (str "/in/a.jpg"). vm_compute. reflexivity.
  - vm_compute. reflexivity.
  - split; [|vm_compute; reflexivity].
    subst run.
    change [example_a; md [("year", "2022")]; example_c]
      with ([example_a] ++ md [("year", "2022")] :: [example_c]).
    change [str "a.jpg"; str "b.jpg"; str "c.jpg"]
      with ([str "a.jpg"] ++ str "b.jpg" :: [str "c.jpg"]).
    rewrite Hall. reflexivity.
Defined.

Lemma first_free_unique (E : gset pystr) filepath p p' :
  first_free E filepath p -> first_free E filepath p' -> p = p'.
Proof.
  unfold first_free.
  intros [Hp [[Hfree ->]|[Htaken (j & Hj & -> & Hall)]]]
         [Hp' [[Hfree' ->]|[Htaken' (j' & Hj' & -> & Hall')]]];
    try reflexivity; try contradiction.
  destruct (Z.lt_trichotomy j j') as [Hlt|[->|Hgt]]; [|reflexivity|].
  - exfalso. apply Hp. apply Hall'. lia.
  - exfalso. apply Hp'. apply Hall. lia.
Qed.

(** X13.  The path [handle_duplicates] returns depends only on the set
    of existing paths, not on the engine or on what was logged or asked
    before; and given the path it returned, on the same filesystem, it
    returns that path again. *)
Theorem handle_duplicates_stable `{FileSystem}
    (self self' : NamingEngine.t) (filepath : pystr) (w w' : world) :
  existing (w_fs w) = existing (w_fs w') ->
  fst (handle_duplicates self filepath w) = fst (handle_duplicates self' filepath w') /\
  exists p w1 w2,
    handle_duplicates self filepath w = (Ok p, w1) /\
    handle_duplicates self p w1 = (Ok p, w2).
Proof.
  intros Hsame.
  destruct (handle_duplicates_run self filepath w) as (p & w1 & Hrun & Hfs & _ & Hfree).
  destruct (handle_duplicates_run self' filepath w') as (p' & w1' & Hrun' & _ & _ & Hfree').
  rewrite <- Hsame in Hfree'. rewrite Hrun, Hrun'. split.
  - cbn [fst]. f_equal. eapply first_free_unique; eassumption.
  - destruct (handle_duplicates_run self p w1) as (q & w2 & Hrun2 & _ & _ & Hfree2).
    exists p, w1, w2. split; [reflexivity|]. rewrite Hrun2. f_equal. f_equal.
    rewrite Hfs in Hfree2. destruct Hfree as [Hp _].
    destruct Hfree2 as [_ [[_ ->]|[Htaken _]]]; [reflexivity | contradiction].
Qed.

Lemma handle_duplicates_stable_witness :
  let d := Disk (paths ["/out/a.jpg"; "/out/a_1.jpg"]) (paths ["/out"]) ∅ (str "/") in
  exists p w1 w2,
    handle_duplicates (NamingEngine.Build (str "{a}")) (str "/out/a.jpg") (on_disk d)
      = (Ok p, w1) /\
    handle_duplicates (NamingEngine.Build (str "{a}")) p w1 = (Ok p, w2).
Proof.
  intros d.
  exact (proj2 (handle_duplicates_stable (NamingEngine.Build (str "{a}"))
                  (NamingEngine.Build (str "{b}")) (str "/out/a.jpg")
                  (on_disk d) (on_disk d) eq_refl)).
Defined.

Lemma organize_file_plan `{FileSystem}
    (self : OrganizationEngine.t) (source_path : pystr) (metadata : metadata)
    (new_filename : pystr) (move : bool) (w : world) :
  exists r w',
    OrganizationEngine.organize_file self source_path metadata new_filename true move w
      = (r, w') /\
    w_fs w' = w_fs w /\
    (exists ops, w_ops w' = w_ops w ++ ops /\
                 Forall (fun op => is_check op = true) ops) /\
    (((source_path ∉ regular (w_fs w)) /\
      r = Raise (FileNotFoundError (str "Source file not found: " ++ source_path))) \/
     (source_path ∈ regular (w_fs w) /\
      exists dest_path,
        first_free (existing (w_fs w))
          (posixpath.join (destination_of self metadata) new_filename) dest_path /\
        r = Ok (source_path, dest_path))).
Proof.
  unfold OrganizationEngine.organize_file, mbind, py_bind, os_path_isfile.
  case_bool_decide as Hreg; cbn [negb].
  - unfold lift at 1. rewrite determine_destination_path_run. cbn [fst snd].
    fold (destination_of self metadata).
    unfold lift at 1. rewrite naming_init_default. cbn [fst snd].
    match goal with |- context [handle_duplicates ?n ?fp ?w0] =>
      destruct (handle_duplicates_run n fp w0)
        as (p & w1 & -> & Hfs & (ops & Hops & Hchk) & Hfree)
    end.
    cbn [w_fs w_ops called] in Hfs, Hops, Hfree.
    eexists. eexists. split; [reflexivity|]. cbn [log lift llog fst snd w_fs w_ops].
    split; [exact Hfs|]. split.
    + exists (OpIsfile source_path :: ops). split.
      * rewrite Hops, <- app_assoc. reflexivity.
      * constructor; [reflexivity | exact Hchk].
    + right. split; [exact Hreg|]. exists p. split; [exact Hfree | reflexivity].
  - eexists. eexists. split; [reflexivity|]. cbn.
    split; [reflexivity|]. split.
    + exists [OpIsfile source_path]. split; [reflexivity | repeat constructor].
    + left. split; [exact Hreg | reflexivity].
Qed.

Lemma organize_each_plan `{FileSystem} self move items :
  Forall (fun item => has_file_path (fst item)) items ->
  forall w, exists rs w',
    (forall results,
       OrganizationEngine.organize_each self items true move results w =
       (Ok (results ++ rs), w')) /\
    w_fs w' = w_fs w /\
    (exists ops, w_ops w' = w_ops w ++ ops /\
                 Forall (fun op => is_check op = true) ops) /\
    Forall2 (planned (w_fs w) self) items rs.
Proof.
  induction 1 as [|[metadata new_filename] items [source_path Hpath] _ IH]; intros w.
  - exists [], w. split; [intros results; rewrite app_nil_r; reflexivity|].
    split; [reflexivity|]. split; [|constructor].
    exists []. rewrite app_nil_r. split; [reflexivity | constructor].
  - cbn [fst] in Hpath.
    destruct (organize_file_plan self source_path metadata new_filename move w)
      as (r & w1 & Hrun & Hfs & (ops & Hops & Hchk) & Hcases).
    assert (Hentry : exists entry w2,
              entry_of source_path (r, w1) = (entry, w2) /\
              w_fs w2 = w_fs w /\ w_ops w2 = w_ops w1 /\
              planned (w_fs w) self (metadata, new_filename) entry).
    { destruct Hcases as [[Hreg ->]|[Hreg (dest_path & Hfree & ->)]].
      - eexists. eexists. split; [reflexivity|]. cbn [w_fs w_ops].
        split; [exact Hfs|]. split; [reflexivity|].
        exists source_path. split; [exact Hpath|]. right. split; [exact Hreg | reflexivity].
      - eexists. eexists. split; [reflexivity|].
        split; [exact Hfs|]. split; [reflexivity|].
        exists source_path. split; [exact Hpath|]. left.
        split; [exact Hreg|]. split; [reflexivity | exact Hfree]. }
    destruct Hentry as (entry & w2 & Hentry & Hfs2 & Hops2 & Hplanned).
    destruct (IH w2) as (rs & w' & Hrs & Hfs' & (ops' & Hops' & Hchk') & Hall).
    exists (entry :: rs), w'. split; [|split; [|split]].
    + intros results. rewrite (organize_each_cons _ _ _ _ _ _ _ _ _ Hpath), Hrun, Hentry.
      rewrite Hrs, <- app_assoc. reflexivity.
    + congruence.
    + exists (ops ++ ops'). split.
      * rewrite Hops', Hops2, Hops, app_assoc. reflexivity.
      * apply Forall_app. split; assumption.
    + constructor; [exact Hplanned|]. rewrite <- Hfs2. exact Hall.
Qed.

(** X14.  In simulation mode [organize_files] plans every file against
    the filesystem as it was when the batch started: the filesystem is
    unchanged, the calls are checks, and the entry of each file is its
    source with the destination chosen among the paths existing at the
    start, or with the error text when the source is not a regular
    file.  An entry does not depend on the other files of the batch or
    on their order. *)
Theorem organize_files_dry_run_plan `{FileSystem}
    (self : OrganizationEngine.t) (move : bool)
    (files_metadata : list metadata) (new_filenames : list pystr) (w : world) :
  length files_metadata = length new_filenames ->
  Forall has_file_path files_metadata ->
  exists rs w',
    OrganizationEngine.organize_files self files_metadata new_filenames true move w
      = (Ok rs, w') /\
    w_fs w' = w_fs w /\
    (exists ops, w_ops w' = w_ops w ++ ops /\
                 Forall (fun op => is_check op = true) ops) /\
    Forall2 (planned (w_fs w) self) (zip files_metadata new_filenames) rs.
Proof.
  intros Hlen Hpaths.
  destruct (organize_each_plan self move _
              (zip_has_file_path files_metadata new_filenames Hpaths) w)
    as (rs & w' & Hrun & Hfs & Hops & Hall).
  exists rs, w'. rewrite organize_files_each by exact Hlen.
  split; [apply (Hrun [])|]. split; [exact Hfs|]. split; [exact Hops | exact Hall].
Qed.

Lemma organize_files_dry_run_plan_witness :
  let run :=
    OrganizationEngine.organize_files example_engine
      [example_a; example_a] [str "x.jpg"; str "x.jpg"] true true
      (on_disk example_disk) in
  fst run = Ok [ (str "/in/a.jpg", str "/out/2021/x.jpg");
                 (str "/in/a.jpg", str "/out/2021/x.jpg") ] /\
  w_fs (snd run) = example_disk.
Proof.
  intros run.
  destruct (organize_files_dry_run_plan example_engine true
              [example_a; example_a] [str "x.jpg"; str "x.jpg"] (on_disk example_disk))
    as (rs & w' & Hrun & Hfs & _).
  - reflexivity.
  - repeat (constructor; [exists (str "/in/a.jpg"); vm_compute; reflexivity|]). constructor.
  - split; [vm_compute; reflexivity|]. subst run. rewrite Hrun. exact Hfs.
Defined.

(** X15.  In simulation mode two files of a batch that are planned for
    the same path get the same destination: the second is not moved
    aside, since nothing was created for the first. *)
Theorem organize_files_dry_run_same_destination `{FileSystem}
    (self : OrganizationEngine.t) (move : bool)
    (files_metadata : list metadata) (new_filenames : list pystr) (w : world)
    (i j : nat) (metadata_i metadata_j : metadata) (name_i name_j : pystr) :
  length files_metadata = length new_filenames ->
  Forall has_file_path files_metadata ->
  zip files_metadata new_filenames !! i = Some (metadata_i, name_i) ->
  zip files_metadata new_filenames !! j = Some (metadata_j, name_j) ->
  posixpath.join (destination_of self metadata_i) name_i =
    posixpath.join (destination_of self metadata_j) name_j ->
  (forall source_path,
     metadata_i !! str "file_path" = Some source_path \/
     metadata_j !! str "file_path" = Some source_path ->
     source_path ∈ regular (w_fs w)) ->
  exists rs entry_i entry_j,
    fst (OrganizationEngine.organize_files self files_metadata new_filenames
           true move w) = Ok rs /\
    rs !! i = Some entry_i /\ rs !! j = Some entry_j /\
    snd entry_i = snd entry_j.
Proof.
  intros Hlen Hpaths Hi Hj Hsame Hregular.
  destruct (organize_each_plan self move _
              (zip_has_file_path files_metadata new_filenames Hpaths) w)
    as (rs & w' & Hrun & _ & _ & Hall).
  rewrite organize_files_each by exact Hlen. rewrite (Hrun []). cbn [fst app].
  destruct (Forall2_lookup_l _ _ _ _ _ Hall Hi) as (entry_i & Hei & Hpi).
  destruct (Forall2_lookup_l _ _ _ _ _ Hall Hj) as (entry_j & Hej & Hpj).
  exists rs, entry_i, entry_j. split; [reflexivity|]. split; [exact Hei|].
  split; [exact Hej|].
  destruct Hpi as (si & Hsi & [(_ & _ & Hfi)|[Hni _]]);
    [|exfalso; apply Hni, Hregular; left; exact Hsi].
  destruct Hpj as (sj & Hsj & [(_ & _ & Hfj)|[Hnj _]]);
    [|exfalso; apply Hnj, Hregular; right; exact Hsj].
  cbn [fst snd] in Hfi, Hfj. rewrite Hsame in Hfi.
  eapply first_free_unique; eassumption.
Qed.

Lemma organize_files_dry_run_same_destination_witness :
  let files := [example_a; md [("file_path", "/in/b.jpg"); ("year", "2021")]] in
  let new_names := [str "x.jpg"; str "x.jpg"] in
  (exists rs entry_i entry_j,
     fst (OrganizationEngine.organize_files example_engine files new_names
            true false (on_disk example_disk)) = Ok rs /\
     rs !! 0 = Some entry_i /\ rs !! 1 = Some entry_j /\
     snd entry_i = snd entry_j) /\
  fst (OrganizationEngine.organize_files example_engine files new_names
         false false (on_disk example_disk)) =
  Ok [ (str "/in/a.jpg", str "/out/2021/x.jpg");
       (str "/in/b.jpg", str "/out/2021/x_1.jpg") ].
Proof.
  intros files new_names. split; [|vm_compute; reflexivity].
  apply (organize_files_dry_run_same_destination example_engine false files new_names
           (on_disk example_disk) 0 1
           example_a (md [("file_path", "/in/b.jpg"); ("year", "2021")])
           (str "x.jpg") (str "x.jpg")).
  - reflexivity.
  - constructor; [exists (str "/in/a.jpg"); vm_compute; reflexivity|].
    constructor; [exists (str "/in/b.jpg"); vm_compute; reflexivity | constructor].
  - reflexivity.
  - reflexivity.
  - vm_compute. reflexivity.
  - intros source_path [Hs|Hs]; vm_compute in Hs; injection Hs as <-;
      vm_compute; reflexivity.
Defined.

(* ================================================================= *)
(** ** Supported files *)

Lemma rfind_from_absent c i found s :
  Forall (fun x => x <> c) s -> posixpath.rfind_from c i found s = found.
Proof.
  intros Hs. revert i found. induction Hs as [|x s Hx _ IH]; intros i found; simpl.
  - reflexivity.
  - rewrite (proj2 (Ascii.eqb_neq x c) Hx). apply IH.
Qed.

Lemma rfind_from_last c i found a b :
  Forall (fun x => x <> c) b ->
  posixpath.rfind_from c i found (a ++ c :: b) = (i + Z.of_nat (length a))%Z.
Proof.
  intros Hb. revert i found. induction a as [|x a IH]; intros i found; simpl.
  - rewrite Ascii.eqb_refl, rfind_from_absent by exact Hb. lia.
  - rewrite IH. lia.
Qed.

Lemma lower_char_dot c : c <> "."%char -> lower_char c <> "."%char.
Proof.
  destruct c as [[] [] [] [] [] [] [] []]; vm_compute; congruence.
Qed.

(** [splitext] on a name with a stem and an extension. *)
Lemma splitext_stem_ext stem ext :
  Forall (fun c => c <> "/"%char) stem -> Exists (fun c => c <> "."%char) stem ->
  Forall (fun c => c <> "/"%char) ext -> Forall (fun c => c <> "."%char) ext ->
  posixpath.splitext (stem ++ "."%char :: ext) = (stem, "."%char :: ext).
Proof.
  intros Hstem Hsome Hext Hdots. unfold posixpath.splitext, posixpath.rfind.
  rewrite (rfind_from_absent "/").
  2:{ apply Forall_app. split; [exact Hstem|]. constructor; [discriminate | exact Hext]. }
  rewrite rfind_from_last by exact Hdots.
  assert (Hlt : (-1 <? 0 + Z.of_nat (length stem))%Z = true) by (apply Z.ltb_lt; lia).
  rewrite Hlt. unfold posixpath.slice, posixpath.upto, posixpath.from.
  replace (Z.to_nat (-1 + 1)) with 0 by reflexivity.
  replace (Z.to_nat (0 + Z.of_nat (length stem) - (-1 + 1))) with (length stem) by lia.
  replace (Z.to_nat (0 + Z.of_nat (length stem))) with (length stem) by lia.
  rewrite drop_0, take_app_length, drop_app_length.
  assert (Hall : forallb (fun c => Ascii.eqb c ".") stem = false).
  { clear -Hsome. induction Hsome as [c s Hc|c s _ IH]; simpl.
    - rewrite (proj2 (Ascii.eqb_neq c ".") Hc). reflexivity.
    - rewrite IH. apply andb_false_r. }
  rewrite Hall. reflexivity.
Qed.

(** X16.  [is_supported_file] looks at the extension only, without
    regard to case: a name made of a stem, a dot and an extension is
    supported exactly when the extension in lower case is one of the
    file types.  The stem has no slash and is not made of dots only; the
    extension has no slash and no dot.  Lower case is that of
    [str.lower], also for the capitals outside ASCII: with the file type
    made of the character 233, an extension made of its capital 201 is
    supported. *)
Theorem is_supported_file_by_extension (self : MetadataExtractor.t) (stem ext : pystr) :
  Forall (fun c => c <> "/"%char) stem -> Exists (fun c => c <> "."%char) stem ->
  Forall (fun c => c <> "/"%char) ext -> Forall (fun c => c <> "."%char) ext ->
  MetadataExtractor.is_supported_file self (stem ++ str "." ++ ext) =
  bool_decide (lower ext ∈ MetadataExtractor.file_types self).
Proof.
  intros Hstem Hsome Hext Hdots. unfold MetadataExtractor.is_supported_file.
  change (stem ++ str "." ++ ext) with (stem ++ "."%char :: ext).
  rewrite splitext_stem_ext by assumption. cbn [snd lower map].
  assert (Hstrip : lstrip (str ".") (lower_char "." :: map lower_char ext) = lower ext).
  { change (lower_char ".") with "."%char. cbn [lstrip].
    change (char_in (str ".") ".") with true. cbv iota.
    unfold lower. destruct Hdots as [|c r Hc _]; [reflexivity|]. cbn [map lstrip].
    assert (Hin : char_in (str ".") (lower_char c) = false).
    { unfold char_in, str. cbn [list_ascii_of_string existsb]. rewrite orb_false_r.
      apply Ascii.eqb_neq. apply lower_char_dot. exact Hc. }
    rewrite Hin. reflexivity. }
  rewrite Hstrip. reflexivity.
Qed.

Lemma is_supported_file_by_extension_witness :
  MetadataExtractor.is_supported_file
    (MetadataExtractor.Build [str "jpg"; str "png"]) (str "IMG_001.JPG") = true /\
  MetadataExtractor.is_supported_file
    (MetadataExtractor.Build [[ascii_of_nat 233]]) (str "a." ++ [ascii_of_nat 201]) = true.
Proof.
  split; [|vm_compute; reflexivity].
  change (str "IMG_001.JPG") with (str "IMG_001" ++ str "." ++ str "JPG").
  rewrite (is_supported_file_by_extension
             (MetadataExtractor.Build [str "jpg"; str "png"]) (str "IMG_001") (str "JPG")).
  - vm_compute. reflexivity.
  - repeat constructor; discriminate.
  - constructor. discriminate.
  - repeat constructor; discriminate.
  - repeat constructor; discriminate.
Defined.
